(** * KDDockWidgets, QtQuick tab bar: the dock-widget list model

    A shallow embedding of [DockWidgetModel] and of the [TabBar] view that
    owns it (src/qtquick/views/TabBar.cpp), with the properties of the
    ordered dock-widget collection proved against it.

    Modelling decisions, all read off the source:
    - a [Core::DockWidget *] stored in [m_dockWidgets] is an opaque non-null
      handle (a [positive]); a pointer that may be [nullptr]
      ([m_currentDockWidget], the result of [dockWidgetAt]) is an [option];
    - [int] values are [Z]; the code does no arithmetic on them;
    - member functions are computations in a small state monad over the
      model's fields; what a call does to the outside world (signals emitted,
      [qWarning] lines, calls on dock widgets and on the controller) is
      returned as the list of events of the call, oldest first;
    - the signal/slot connections made by [insert] live in a multiset of
      connections, which is the part of Qt's connection table whose receiver
      is this model;
    - [setCurrentIndex] and [setCurrentDockWidget] call each other; they are
      defined by recursion on a fuel argument and shown to need at most
      three levels. *)

From Stdlib Require Import ZArith Lia.
From stdpp Require Import gmultiset.
From stdpp Require Import base option list gmap.

Local Open Scope Z_scope.

(** ** Handles, connections, events *)

(** A non-null [Core::DockWidget *]. *)
Abbreviation DockWidget := positive.

(** The two signals of a dock widget the model subscribes to. *)
Inductive Signal := titleChanged | destroyed.

#[global] Instance Signal_eq_dec : EqDecision Signal.
Proof. solve_decision. Defined.

#[global] Instance Signal_countable : Countable Signal.
Proof.
  refine (inj_countable'
            (λ s, match s with titleChanged => false | destroyed => true end)
            (λ b : bool, if b then destroyed else titleChanged) _).
  by intros [].
Defined.

(** A [QMetaObject::Connection] from a dock widget's signal to the model.
    The slot is fixed by the signal: [titleChanged] runs
    [emitDataChangedFor(dw)], [destroyed] runs [remove(dw)]. *)
Record Connection := Conn { conn_sender : DockWidget; conn_signal : Signal }.

#[global] Instance Connection_eq_dec : EqDecision Connection.
Proof. solve_decision. Defined.

#[global] Instance Connection_countable : Countable Connection.
Proof.
  refine (inj_countable' (λ c, (conn_sender c, conn_signal c))
                         (λ p, Conn p.1 p.2) _).
  by intros [].
Defined.

(** The four [qWarning] lines of the model. *)
Inductive Diagnostic :=
| NothingToRemove (dw : DockWidget)                 (* remove *)
| ShouldntHappen                                    (* insert *)
| CouldntFind (dw : DockWidget)                     (* emitDataChangedFor *)
| UnexpectedNullIndex (dw : DockWidget) (count : Z) (* currentIndex *).

(** Everything a call makes observable outside the model. *)
Inductive Event :=
| qWarning (d : Diagnostic)
| setVisible (dw : DockWidget) (visible : bool)
| enterSettingCurrent (dw : DockWidget)  (* guard sets d->m_isSettingCurrent *)
| leaveSettingCurrent (dw : DockWidget)  (* guard restores it *)
| rowsAboutToBeInserted (first last : Z)
| rowsInserted (first last : Z)
| rowsAboutToBeRemoved (first last : Z)
| rowsRemoved (first last : Z)
| dataChanged (row : Z)
| countChanged
| dockWidgetRemoved
| controller_setCurrentIndex (index : Z)  (* m_tabBar->setCurrentIndex *)
| controller_countChanged                 (* Q_EMIT controller->countChanged() *)
| hoveredTabIndexChanged (index : Z).

#[global] Instance Diagnostic_eq_dec : EqDecision Diagnostic.
Proof. solve_decision. Defined.

#[global] Instance Event_eq_dec : EqDecision Event.
Proof. solve_decision. Defined.

Definition is_warning (e : Event) : bool :=
  match e with qWarning _ => true | _ => false end.

(** Number of occurrences of an event in a trace. *)
Definition occurrences (e : Event) (evs : list Event) : nat :=
  length (filter (λ e', e' = e) evs).

(** ** The monad of member functions *)

(** A call either returns a value, a new state and its events, or stops on a
    failed [Q_ASSERT] of the Qt API, or runs out of fuel. *)
Inductive Outcome (S A : Type) :=
| Ok (a : A) (s : S) (evs : list Event)
| QtAssert
| OutOfFuel.
Arguments Ok {S A} a s evs.
Arguments QtAssert {S A}.
Arguments OutOfFuel {S A}.

Definition M (S A : Type) : Type := S → Outcome S A.

Definition ret {S A} (a : A) : M S A := λ s, Ok a s [].

Definition bind {S A B} (c : M S A) (k : A → M S B) : M S B :=
  λ s, match c s with
       | Ok a s1 e1 =>
           match k a s1 with
           | Ok b s2 e2 => Ok b s2 (e1 ++ e2)
           | QtAssert => QtAssert
           | OutOfFuel => OutOfFuel
           end
       | QtAssert => QtAssert
       | OutOfFuel => OutOfFuel
       end.

Declare Scope model_scope.
Delimit Scope model_scope with model.
Notation "x <- c1 ;; c2" := (bind c1 (λ x, c2))
  (at level 100, c1 at next level, right associativity) : model_scope.
Notation "c1 ;; c2" := (bind c1 (λ _, c2))
  (at level 100, right associativity) : model_scope.

Definition gets {S A} (f : S → A) : M S A := λ s, Ok (f s) s [].
Definition modify {S} (f : S → S) : M S unit := λ s, Ok tt (f s) [].
Definition emit {S} (e : Event) : M S unit := λ s, Ok tt s [e].
Definition q_assert {S} (b : bool) : M S unit :=
  λ s, if b then Ok tt s [] else QtAssert.
Definition out_of_fuel {S A} : M S A := λ _, OutOfFuel.
Definition when {S} (b : bool) (c : M S unit) : M S unit :=
  if b then c else ret tt.

(** ** QVector operations used by the model *)

(** [QVector::indexOf]: position of the first occurrence, or -1. *)
Fixpoint QVector_indexOf_from (l : list DockWidget) (x : DockWidget) (from : Z) : Z :=
  match l with
  | [] => -1
  | y :: l' => if decide (y = x) then from else QVector_indexOf_from l' x (from + 1)
  end.

Definition QVector_indexOf (l : list DockWidget) (x : DockWidget) : Z :=
  QVector_indexOf_from l x 0.

Definition QVector_contains (l : list DockWidget) (x : DockWidget) : bool :=
  bool_decide (QVector_indexOf l x ≠ -1).

(** [QVector::removeOne]: drops the first occurrence, if any. *)
Fixpoint QVector_removeOne (l : list DockWidget) (x : DockWidget) : list DockWidget :=
  match l with
  | [] => []
  | y :: l' => if decide (y = x) then l' else y :: QVector_removeOne l' x
  end.

(** [QVector::insert(i, x)] for [0 <= i <= size]; the caller checks the
    range, outside of which Qt asserts. *)
Definition QVector_insert (i : Z) (x : DockWidget) (l : list DockWidget) : list DockWidget :=
  take (Z.to_nat i) l ++ x :: drop (Z.to_nat i) l.

(** ** DockWidgetModel *)

(** The data members the member functions of TabBar.cpp read and write.
    [m_tabBar], the controller, is a constant pointer to an object outside
    the model: calls on it are events. *)
Record DockWidgetModel := mkModel {
  m_dockWidgets : list DockWidget;
  m_connections : gmap DockWidget (list Connection);
  m_removeGuard : bool;
  m_currentDockWidget : option DockWidget;
  (** Qt's live connections whose receiver is this model. *)
  qt_connections : gmultiset Connection
}.

Definition set_dockWidgets (l : list DockWidget) (m : DockWidgetModel) :=
  mkModel l (m_connections m) (m_removeGuard m) (m_currentDockWidget m) (qt_connections m).
Definition set_connections (c : gmap DockWidget (list Connection)) (m : DockWidgetModel) :=
  mkModel (m_dockWidgets m) c (m_removeGuard m) (m_currentDockWidget m) (qt_connections m).
Definition set_removeGuard (b : bool) (m : DockWidgetModel) :=
  mkModel (m_dockWidgets m) (m_connections m) b (m_currentDockWidget m) (qt_connections m).
Definition set_currentDockWidget (dw : option DockWidget) (m : DockWidgetModel) :=
  mkModel (m_dockWidgets m) (m_connections m) (m_removeGuard m) dw (qt_connections m).
Definition set_qt_connections (q : gmultiset Connection) (m : DockWidgetModel) :=
  mkModel (m_dockWidgets m) (m_connections m) (m_removeGuard m) (m_currentDockWidget m) q.

(** The model after its constructor. *)
Definition new_model : DockWidgetModel := mkModel [] ∅ false None ∅.

(** [QObject::connect] and [QObject::disconnect] on the connection table. *)
Definition connect (dw : DockWidget) (sg : Signal) : M DockWidgetModel Connection :=
  (modify (λ m, set_qt_connections (qt_connections m ⊎ {[+ Conn dw sg +]}) m) ;;
   ret (Conn dw sg))%model.

Definition disconnect (c : Connection) : M DockWidgetModel unit :=
  modify (λ m, set_qt_connections (qt_connections m ∖ {[+ c +]}) m).

Fixpoint disconnect_all (cs : list Connection) : M DockWidgetModel unit :=
  match cs with
  | [] => ret tt
  | c :: cs' => (disconnect c ;; disconnect_all cs')%model
  end.

(** *** Queries *)

Definition count (m : DockWidgetModel) : Z := Z.of_nat (length (m_dockWidgets m)).

Definition dockWidgetAt (m : DockWidgetModel) (index : Z) : option DockWidget :=
  if (index <? 0) || (index >=? count m) then None  (* Can happen. Benign. *)
  else m_dockWidgets m !! Z.to_nat index.

Definition contains (m : DockWidgetModel) (dw : DockWidget) : bool :=
  QVector_contains (m_dockWidgets m) dw.

Definition currentDockWidget (m : DockWidgetModel) : option DockWidget :=
  m_currentDockWidget m.

(** [indexOf] takes a pointer that may be null; the vector holds no null. *)
Definition indexOf (m : DockWidgetModel) (dw : option DockWidget) : Z :=
  match dw with
  | Some d => QVector_indexOf (m_dockWidgets m) d
  | None => -1
  end.

Definition currentIndex : M DockWidgetModel Z :=
  (cur <- gets m_currentDockWidget ;;
   match cur with
   | None => ret (-1)
   | Some c =>
       index <- gets (λ m, QVector_indexOf (m_dockWidgets m) c) ;;
       n <- gets count ;;
       when (index =? -1) (emit (qWarning (UnexpectedNullIndex c n))) ;;
       ret index
   end)%model.

(** *** Mutators *)

Definition emitDataChangedFor (dw : DockWidget) : M DockWidgetModel unit :=
  (row <- gets (λ m, indexOf m (Some dw)) ;;
   if row =? -1 then emit (qWarning (CouldntFind dw))
   else emit (dataChanged row))%model.

(** [QScopedValueRollback<bool> guard(m_removeGuard, true)] around the rest
    of the block: the flag is set on entry, and the value it had is put back
    when the scope is left. *)
Definition with_removeGuard {A} (body : M DockWidgetModel A) : M DockWidgetModel A :=
  (saved <- gets m_removeGuard ;;
   modify (set_removeGuard true) ;;
   a <- body ;;
   modify (set_removeGuard saved) ;;
   ret a)%model.

Definition remove (dw : DockWidget) : M DockWidgetModel unit :=
  with_removeGuard
    (row <- gets (λ m, indexOf m (Some dw)) ;;
     if row =? -1 then
       guard <- gets m_removeGuard ;;
       (* can happen if there's reentrancy *)
       when (negb guard) (emit (qWarning (NothingToRemove dw)))
     else
       connections <- gets (λ m, default [] (m_connections m !! dw)) ;;
       modify (λ m, set_connections (delete dw (m_connections m)) m) ;;
       disconnect_all connections ;;
       emit (rowsAboutToBeRemoved row row) ;;
       modify (λ m, set_dockWidgets (QVector_removeOne (m_dockWidgets m) dw) m) ;;
       emit (rowsRemoved row row) ;;
       emit countChanged ;;
       emit dockWidgetRemoved)%model.

(** [insert]. [beginInsertRows] and [QVector::insert] both assert
    [0 <= index <= size]. *)
Definition insert (dw : DockWidget) (index : Z) : M DockWidgetModel bool :=
  (dup <- gets (λ m, contains m dw) ;;
   if dup then
     emit (qWarning ShouldntHappen) ;;
     ret false
   else
     conn <- connect dw titleChanged ;;
     conn2 <- connect dw destroyed ;;
     modify (λ m, set_connections (<[dw := [conn; conn2]]> (m_connections m)) m) ;;
     n <- gets count ;;
     q_assert ((0 <=? index) && (index <=? n)) ;;
     emit (rowsAboutToBeInserted index index) ;;
     modify (λ m, set_dockWidgets (QVector_insert index dw (m_dockWidgets m)) m) ;;
     emit (rowsInserted index index) ;;
     emit countChanged ;;
     ret true)%model.

(** [setCurrentIndex] and [setCurrentDockWidget], mutually recursive in the
    source. *)
Fixpoint setCurrentIndex (fuel : nat) (index : Z) : M DockWidgetModel unit :=
  match fuel with
  | O => out_of_fuel
  | S fuel' =>
      (dw <- gets (λ m, dockWidgetAt m index) ;;
       cur <- gets m_currentDockWidget ;;
       if decide (cur ≠ dw) then
         setCurrentDockWidget fuel' dw ;;
         emit (controller_setCurrentIndex index)
       else ret tt)%model
  end
with setCurrentDockWidget (fuel : nat) (dw : option DockWidget) : M DockWidgetModel unit :=
  match fuel with
  | O => out_of_fuel
  | S fuel' =>
      (old <- gets m_currentDockWidget ;;
       match old with
       | Some c => emit (setVisible c false)
       | None => ret tt
       end ;;
       modify (set_currentDockWidget dw) ;;
       idx <- gets (λ m, indexOf m dw) ;;
       setCurrentIndex fuel' idx ;;
       cur <- gets m_currentDockWidget ;;
       match cur with
       | Some c =>
           emit (enterSettingCurrent c) ;;
           emit (setVisible c true) ;;
           emit (leaveSettingCurrent c)
       | None => ret tt
       end)%model
  end.

(** *** Signals of the dock widgets

    [insert] connects [titleChanged] to [emitDataChangedFor(dw)] and
    [destroyed] to [remove(dw)]. Emitting a signal runs the slot once for
    every connection that is still live when its turn comes. *)
Definition slot_of (c : Connection) : M DockWidgetModel unit :=
  match conn_signal c with
  | titleChanged => emitDataChangedFor (conn_sender c)
  | destroyed => remove (conn_sender c)
  end.

Fixpoint deliver (n : nat) (c : Connection) : M DockWidgetModel unit :=
  match n with
  | O => ret tt
  | S n' =>
      (live <- gets (λ m, bool_decide (c ∈ qt_connections m)) ;;
       when live (slot_of c) ;;
       deliver n' c)%model
  end.

Definition emit_signal (dw : DockWidget) (sg : Signal) : M DockWidgetModel unit :=
  (n <- gets (λ m, multiplicity (Conn dw sg) (qt_connections m)) ;;
   deliver n (Conn dw sg))%model.

(** The dock widget's title changes. *)
Definition on_titleChanged (dw : DockWidget) : M DockWidgetModel unit :=
  emit_signal dw titleChanged.

(** The dock widget is deleted: [~QObject] emits [destroyed] and then drops
    every connection of the dying sender. *)
Definition on_destroyed (dw : DockWidget) : M DockWidgetModel unit :=
  (emit_signal dw destroyed ;;
   modify (λ m, set_qt_connections
                  (filter (λ c, conn_sender c ≠ dw) (qt_connections m)) m))%model.

(** ** The TabBar view *)

Record TabBar := mkTabBar {
  m_dockWidgetModel : DockWidgetModel;
  m_hoveredTabIndex : Z
}.

(** Runs a call of the model inside the view. The constructor of [TabBar]
    connects the model's [countChanged] to the controller's, so each
    [countChanged] is followed by the controller's. *)
Definition forward_countChanged (evs : list Event) : list Event :=
  evs ≫= λ e, if decide (e = countChanged) then [e; controller_countChanged] else [e].

Definition on_model {A} (c : M DockWidgetModel A) : M TabBar A :=
  λ tb, match c (m_dockWidgetModel tb) with
        | Ok a m evs => Ok a (mkTabBar m (m_hoveredTabIndex tb)) (forward_countChanged evs)
        | QtAssert => QtAssert
        | OutOfFuel => OutOfFuel
        end.

Module TabBar.

Definition moveTabTo (from to : Z) : M TabBar unit :=
  (* Not implemented yet *)
  ret tt.

Definition setCurrentIndex (fuel : nat) (index : Z) : M TabBar unit :=
  on_model (setCurrentIndex fuel index).

Definition removeDockWidget (dw : DockWidget) : M TabBar unit :=
  on_model (remove dw).

Definition insertDockWidget (index : Z) (dw : DockWidget) : M TabBar unit :=
  (on_model (insert dw index) ;; ret tt)%model.

Definition dockWidgetModel (tb : TabBar) : DockWidgetModel := m_dockWidgetModel tb.

Definition setHoveredTabIndex (idx : Z) : M TabBar unit :=
  (hovered <- gets m_hoveredTabIndex ;;
   if idx =? hovered then ret tt
   else
     modify (λ tb, mkTabBar (m_dockWidgetModel tb) idx) ;;
     emit (hoveredTabIndexChanged idx))%model.

Definition hoveredTabIndex (tb : TabBar) : Z := m_hoveredTabIndex tb.

End TabBar.

(** ** States and traces the properties are stated with *)

(** *** After a removal, after an insertion *)

(** [disconnect] applied to each connection of [cs] in turn. *)
Definition disconnected (cs : list Connection) (q : gmultiset Connection)
  : gmultiset Connection :=
  foldl (λ q c, q ∖ {[+ c +]}) q cs.

(** The model after [dw], present, has been removed. *)
Definition removed (dw : DockWidget) (m : DockWidgetModel) : DockWidgetModel :=
  mkModel (QVector_removeOne (m_dockWidgets m) dw)
          (delete dw (m_connections m))
          (m_removeGuard m)
          (m_currentDockWidget m)
          (disconnected (default [] (m_connections m !! dw)) (qt_connections m)).

Definition removal_events (row : Z) : list Event :=
  [rowsAboutToBeRemoved row row; rowsRemoved row row; countChanged; dockWidgetRemoved].

(** The model after [dw], absent, has been inserted at [index]. *)
Definition inserted (dw : DockWidget) (index : Z) (m : DockWidgetModel)
  : DockWidgetModel :=
  mkModel (QVector_insert index dw (m_dockWidgets m))
          (<[dw := [Conn dw titleChanged; Conn dw destroyed]]> (m_connections m))
          (m_removeGuard m)
          (m_currentDockWidget m)
          (qt_connections m ⊎ {[+ Conn dw titleChanged +]} ⊎ {[+ Conn dw destroyed +]}).

Definition insertion_events (index : Z) : list Event :=
  [rowsAboutToBeInserted index index; rowsInserted index index; countChanged].

(** What [setCurrentDockWidget] tells the previous and the new current
    widget. *)
Definition hide_events (p : option DockWidget) : list Event :=
  match p with Some c => [setVisible c false] | None => [] end.

Definition show_events (p : option DockWidget) : list Event :=
  match p with
  | Some c => [enterSettingCurrent c; setVisible c true; leaveSettingCurrent c]
  | None => []
  end.

(** *** Invariants *)

(** The two connections [insert] makes for a widget. *)
Definition subscriptions_of (dw : DockWidget) : list Connection :=
  [Conn dw titleChanged; Conn dw destroyed].

Definition expected_connections (l : list DockWidget)
  : gmap DockWidget (list Connection) :=
  list_to_map ((λ dw, (dw, subscriptions_of dw)) <$> l).

Definition expected_qt_connections (l : list DockWidget) : gmultiset Connection :=
  list_to_set_disj (l ≫= subscriptions_of).

(** No widget twice, and the subscriptions are those of the widgets of the
    vector: each is recorded in [m_connections] and live. *)
Definition well_formed (m : DockWidgetModel) : Prop :=
  NoDup (m_dockWidgets m)
  ∧ m_connections m = expected_connections (m_dockWidgets m)
  ∧ qt_connections m = expected_qt_connections (m_dockWidgets m).

#[global] Instance well_formed_dec m : Decision (well_formed m).
Proof. unfold well_formed. apply _. Defined.

(** The current widget, when set, is in the vector. *)
Definition current_in_sequence (m : DockWidgetModel) : Prop :=
  match m_currentDockWidget m with
  | Some c => c ∈ m_dockWidgets m
  | None => True
  end.

#[global] Instance current_in_sequence_dec m : Decision (current_in_sequence m).
Proof. unfold current_in_sequence. destruct (m_currentDockWidget m); apply _. Defined.

(** [m'] has the current pointer of [m] and every widget of [m] but [dw]. *)
Definition keeps_others (dw : DockWidget) (m m' : DockWidgetModel) : Prop :=
  m_currentDockWidget m' = m_currentDockWidget m
  ∧ ∀ x, x ≠ dw → x ∈ m_dockWidgets m → x ∈ m_dockWidgets m'.

(** The states the model goes through when its owner calls the public
    operations and dock widgets are deleted, starting from the constructor. *)
Inductive reachable : DockWidgetModel → Prop :=
| reachable_new : reachable new_model
| reachable_insert m dw index b m' evs :
    reachable m → insert dw index m = Ok b m' evs → reachable m'
| reachable_remove m dw m' evs :
    reachable m → remove dw m = Ok tt m' evs → reachable m'
| reachable_setCurrentIndex m fuel index m' evs :
    reachable m → setCurrentIndex fuel index m = Ok tt m' evs → reachable m'
| reachable_destroyed m dw m' evs :
    reachable m → on_destroyed dw m = Ok tt m' evs → reachable m'.

(** *** Histories of insert and remove *)

Inductive Op :=
| op_insert (h : DockWidget) (i : Z)
| op_remove (h : DockWidget).

Definition run_op (o : Op) : M DockWidgetModel unit :=
  match o with
  | op_insert h i => (insert h i ;; ret tt)%model
  | op_remove h => remove h
  end.

Fixpoint run_ops (ops : list Op) : M DockWidgetModel unit :=
  match ops with
  | [] => ret tt
  | o :: ops' => (run_op o ;; run_ops ops')%model
  end.

Definition inserted_handles (ops : list Op) : list DockWidget :=
  ops ≫= λ o, match o with op_insert h _ => [h] | op_remove _ => [] end.

(** The list operations the specification compares the model with, in its
    words: [insert] "splices it into the sequence at index", a position that
    exists for [0 <= i <= length]; [remove] "splices the handle out". These
    are written on plain lists, independently of the model. *)
Definition list_splice_in (i : Z) (h : DockWidget) (l : list DockWidget)
  : option (list DockWidget) :=
  if decide (0 ≤ i ≤ Z.of_nat (length l))
  then Some (take (Z.to_nat i) l ++ h :: drop (Z.to_nat i) l)
  else None.

Definition list_delete (h : DockWidget) (l : list DockWidget) : list DockWidget :=
  filter (λ x, x ≠ h) l.

Fixpoint list_ops (ops : list Op) (l : list DockWidget) : option (list DockWidget) :=
  match ops with
  | [] => Some l
  | op_insert h i :: ops' =>
      match list_splice_in i h l with
      | Some l' => list_ops ops' l'
      | None => None
      end
  | op_remove h :: ops' => list_ops ops' (list_delete h l)
  end.

(** *** Example states *)

(** A model holding the single widget 1, which is current: the state after
    [insert(1, 0)] and [setCurrentIndex(0)]. *)
Definition single_current : DockWidgetModel :=
  mkModel [1%positive] (expected_connections [1%positive]) false
          (Some 1%positive) (expected_qt_connections [1%positive]).

(** A model holding the widgets 1 and 2, the first of which is current. *)
Definition two_tabs : DockWidgetModel :=
  mkModel [1%positive; 2%positive] (expected_connections [1%positive; 2%positive])
          false (Some 1%positive) (expected_qt_connections [1%positive; 2%positive]).

(** A model in the middle of a [remove]: the guard flag is set. This is the
    state in which a slot connected to one of the signals [remove] emits
    finds the model when it calls [remove] again. *)
Definition removing : DockWidgetModel := set_removeGuard true new_model.

(** A history: three inserts, one of them in the middle, and a removal. *)
Definition example_history : list Op :=
  [op_insert 1%positive 0; op_insert 2%positive 1; op_insert 3%positive 1;
   op_remove 1%positive].

(** ** The list-model interface and the hover tracking of the view *)

(** [rowCount(parent)]: the model is flat, only the root has rows. *)
Definition rowCount (parent_isValid : bool) (m : DockWidgetModel) : Z :=
  if parent_isValid then 0 else count m.

(** [data(index, role)], with [row] for [index.row()]. An invalid [QVariant]
    is [None]. [title] stands for [Core::DockWidget::title()] and
    [Role_Title] for the enumerator of that name, both declared outside
    TabBar.cpp. *)
Definition data {T} (title : DockWidget → T) (Role_Title : Z) (row role : Z)
    (m : DockWidgetModel) : option T :=
  if (row <? 0) || (row >=? count m) then None
  else
    match m_dockWidgets m !! Z.to_nat row with
    | Some dw => if role =? Role_Title then Some (title dw) else None
    | None => None
    end.

(** [indexForTabPos(globalPt)]: the loop over the tabs. [hit i] stands for
    [globalRectForTab(i).contains(globalPt)], which is answered by the QML
    item. *)
Fixpoint indexForTabPos_loop (hit : Z → bool) (remaining : nat) (i : Z) : Z :=
  match remaining with
  | O => -1
  | S remaining' =>
      if hit i then i else indexForTabPos_loop hit remaining' (i + 1)
  end.

Definition indexForTabPos (hit : Z → bool) (tb : TabBar) : Z :=
  indexForTabPos_loop hit (Z.to_nat (count (m_dockWidgetModel tb))) 0.

(** What the QML tab bar item answers when [tabAt(int)] invokes
    [getTabAtIndex(index)]: the call fails, or it succeeds with a null item,
    or with an item, of which [contains_point] tells whether its global
    bounding rectangle contains the point of the hover event. *)
Inductive TabAnswer :=
| invoke_failed
| null_item
| item (contains_point : bool).

#[global] Instance TabAnswer_eq_dec : EqDecision TabAnswer.
Proof. solve_decision. Defined.

(** What a call on the view makes observable: the [qWarning] of
    [tabAt(int)], "Could not find tab for index", and the events of the
    functions modelled above. *)
Inductive ViewEvent :=
| tabAt_warning (index : Z)
| view_event (e : Event).

(** [tabAt(int)]: the item if there is one, with the warning when the call
    on the QML item fails. *)
Definition tabAt (qml : Z → TabAnswer) (index : Z) : option bool * list ViewEvent :=
  match qml index with
  | invoke_failed => (None, [tabAt_warning index])
  | null_item => (None, [])
  | item contains_point => (Some contains_point, [])
  end.

(** [globalRectForTab(index).contains(globalPt)]: without an item the
    rectangle is the null [QRect], which contains no point. *)
Definition globalRectForTab_contains (qml : Z → TabAnswer) (index : Z)
  : bool * list ViewEvent :=
  match tabAt qml index with
  | (Some contains_point, evs) => (contains_point, evs)
  | (None, evs) => (false, evs)
  end.

(** [indexForTabPos(globalPt)] with what it prints on the way. *)
Fixpoint indexForTabPos_traced_loop (qml : Z → TabAnswer) (remaining : nat) (i : Z)
  : Z * list ViewEvent :=
  match remaining with
  | O => (-1, [])
  | S remaining' =>
      match globalRectForTab_contains qml i with
      | (true, evs) => (i, evs)
      | (false, evs) =>
          match indexForTabPos_traced_loop qml remaining' (i + 1) with
          | (r, evs') => (r, evs ++ evs')
          end
      end
  end.

Definition indexForTabPos_traced (qml : Z → TabAnswer) (tb : TabBar)
  : Z * list ViewEvent :=
  indexForTabPos_traced_loop qml (Z.to_nat (count (m_dockWidgetModel tb))) 0.

Inductive HoverEventType := HoverEnter | HoverLeave | HoverMove.

(** [onHoverEvent(ev, globalPos)]: the new view and the trace of the call,
    the warnings of the tab lookup first. [setHoveredTabIndex] has no failing
    outcome; [None] stands for one. *)
Definition onHoverEvent (qml : Z → TabAnswer) (type : HoverEventType) (tb : TabBar)
  : option (TabBar * list ViewEvent) :=
  match (match type with
         | HoverLeave => (-1, [])
         | _ => indexForTabPos_traced qml tb
         end) with
  | (idx, warnings) =>
      match TabBar.setHoveredTabIndex idx tb with
      | Ok _ tb' evs => Some (tb', warnings ++ (view_event <$> evs))
      | _ => None
      end
  end.

(** Whether the tab at [i] is under the point, and whether looking it up
    fails, according to the QML item. *)
Definition tab_hit (qml : Z → TabAnswer) (i : Z) : bool :=
  match qml i with item contains_point => contains_point | _ => false end.

Definition tab_unresolved (qml : Z → TabAnswer) (i : Z) : Prop :=
  qml i = invoke_failed.

#[global] Instance tab_unresolved_dec qml i : Decision (tab_unresolved qml i).
Proof. unfold tab_unresolved. apply _. Defined.

(** * Properties *)

(** ** The vector operations *)

Section QVector.
Implicit Types (l : list DockWidget) (x y : DockWidget).

Lemma QVector_indexOf_from_absent l x from :
  x ∉ l → QVector_indexOf_from l x from = -1.
Proof.
  revert from. induction l as [|y l IH]; intros from Hx; simpl; [done|].
  apply not_elem_of_cons in Hx as [Hne Hx].
  destruct (decide (y = x)); [congruence | by apply IH].
Qed.

(** A present element is found at its first position. *)
Lemma QVector_indexOf_from_present l x from :
  x ∈ l →
  ∃ n : nat, l !! n = Some x ∧ (x ∉ take n l) ∧
             QVector_indexOf_from l x from = from + Z.of_nat n.
Proof.
  revert from. induction l as [|y l IH]; intros from Hx.
  - by apply elem_of_nil in Hx.
  - simpl. destruct (decide (y = x)) as [->|Hne].
    + exists 0%nat. simpl. split_and!; [done | apply not_elem_of_nil | lia].
    + apply elem_of_cons in Hx as [Hx|Hx]; [congruence|].
      destruct (IH (from + 1) Hx) as (n & Hn & Hfirst & Hidx).
      exists (S n). simpl. split_and!; [done | | lia].
      apply not_elem_of_cons. split; [congruence | done].
Qed.

Lemma QVector_indexOf_absent l x : x ∉ l → QVector_indexOf l x = -1.
Proof. apply QVector_indexOf_from_absent. Qed.

Lemma QVector_indexOf_present l x :
  x ∈ l →
  ∃ n : nat, l !! n = Some x ∧ (x ∉ take n l) ∧ QVector_indexOf l x = Z.of_nat n.
Proof.
  intros Hx. destruct (QVector_indexOf_from_present l x 0 Hx) as (n & ? & ? & ?).
  exists n. unfold QVector_indexOf. split_and!; [done | done | lia].
Qed.

Lemma QVector_indexOf_minus_one l x : QVector_indexOf l x = -1 ↔ x ∉ l.
Proof.
  split; [|apply QVector_indexOf_absent].
  intros Hidx Hx. destruct (QVector_indexOf_present l x Hx) as (n & _ & _ & Hn). lia.
Qed.

Lemma QVector_indexOf_range l x :
  -1 ≤ QVector_indexOf l x < Z.of_nat (length l).
Proof.
  destruct (decide (x ∈ l)) as [Hx|Hx].
  - destruct (QVector_indexOf_present l x Hx) as (n & Hn & _ & ->).
    apply lookup_lt_Some in Hn. lia.
  - rewrite QVector_indexOf_absent by done. lia.
Qed.

(** Without duplicates the position of an element is its index. *)
Lemma QVector_indexOf_lookup l x (n : nat) :
  NoDup l → l !! n = Some x → QVector_indexOf l x = Z.of_nat n.
Proof.
  intros Hnd Hn.
  destruct (QVector_indexOf_present l x) as (k & Hk & _ & ->).
  { by eapply list_elem_of_lookup_2. }
  f_equal. by eapply NoDup_lookup.
Qed.

(** The element at the position [indexOf] reports is the element asked for. *)
Lemma QVector_lookup_indexOf l x :
  x ∈ l → l !! Z.to_nat (QVector_indexOf l x) = Some x.
Proof.
  intros Hx. destruct (QVector_indexOf_present l x Hx) as (n & Hn & _ & ->).
  by rewrite Nat2Z.id.
Qed.

Lemma QVector_contains_true l x : QVector_contains l x = true ↔ x ∈ l.
Proof.
  unfold QVector_contains. rewrite bool_decide_eq_true, QVector_indexOf_minus_one.
  split; [apply dec_stable | tauto].
Qed.

Lemma QVector_contains_false l x : QVector_contains l x = false ↔ x ∉ l.
Proof.
  rewrite <- QVector_contains_true. destruct (QVector_contains l x); naive_solver.
Qed.

Lemma QVector_removeOne_absent l x : x ∉ l → QVector_removeOne l x = l.
Proof.
  induction l as [|y l IH]; intros Hx; simpl; [done|].
  apply not_elem_of_cons in Hx as [Hne Hx].
  destruct (decide (y = x)); [congruence | by rewrite IH].
Qed.

(** Without duplicates [removeOne] leaves exactly the other elements, in
    their order. *)
Lemma QVector_removeOne_filter l x :
  NoDup l → QVector_removeOne l x = filter (λ y, y ≠ x) l.
Proof.
  induction 1 as [|y l Hy Hnd IH]; simpl; [done|].
  destruct (decide (y = x)) as [->|Hne].
  - rewrite filter_cons_False by (intros ?; done).
    rewrite <- IH. by rewrite QVector_removeOne_absent.
  - rewrite filter_cons_True by done. by rewrite IH.
Qed.

Lemma QVector_removeOne_elem_of l x y :
  NoDup l → y ∈ QVector_removeOne l x ↔ y ∈ l ∧ y ≠ x.
Proof.
  intros Hnd. rewrite QVector_removeOne_filter by done.
  rewrite list_elem_of_filter. tauto.
Qed.

Lemma QVector_removeOne_NoDup l x : NoDup l → NoDup (QVector_removeOne l x).
Proof.
  intros Hnd. rewrite QVector_removeOne_filter by done. by apply NoDup_filter.
Qed.

Lemma QVector_removeOne_length l x :
  x ∈ l → length (QVector_removeOne l x) = pred (length l).
Proof.
  induction l as [|y l IH]; intros Hx; [by apply elem_of_nil in Hx|].
  simpl. destruct (decide (y = x)) as [->|Hne]; [done|].
  apply elem_of_cons in Hx as [Hx|Hx]; [congruence|].
  simpl. rewrite IH by done. destruct l; [by apply elem_of_nil in Hx | done].
Qed.

Lemma QVector_insert_elem_of i l x y :
  y ∈ QVector_insert i x l ↔ y = x ∨ y ∈ l.
Proof.
  unfold QVector_insert. rewrite elem_of_app, elem_of_cons.
  rewrite <- (take_drop (Z.to_nat i) l) at 3. rewrite elem_of_app. tauto.
Qed.

Lemma QVector_insert_NoDup i l x :
  x ∉ l → NoDup l → NoDup (QVector_insert i x l).
Proof.
  intros Hx Hnd. unfold QVector_insert.
  rewrite <- (take_drop (Z.to_nat i) l) in Hx, Hnd.
  apply NoDup_app in Hnd as (Ht & Hdisj & Hd).
  apply not_elem_of_app in Hx as [Hxt Hxd].
  apply NoDup_app. split_and!; [done | | by apply NoDup_cons].
  intros y Hy [->|Hyd]%elem_of_cons; [done | by eapply Hdisj].
Qed.

Lemma QVector_insert_length i l x :
  length (QVector_insert i x l) = S (length l).
Proof.
  unfold QVector_insert. rewrite length_app. simpl.
  rewrite length_take, length_drop. lia.
Qed.

(** The inserted element sits at the requested position. *)
Lemma QVector_insert_lookup (i : Z) l x :
  0 ≤ i ≤ Z.of_nat (length l) → QVector_insert i x l !! Z.to_nat i = Some x.
Proof.
  intros Hi. unfold QVector_insert.
  rewrite lookup_app_r by (rewrite length_take; lia).
  rewrite length_take. by replace (Z.to_nat i - Z.to_nat i `min` length l)%nat with 0%nat by lia.
Qed.

End QVector.

(** ** What each member function computes *)

Section Operations.
Implicit Types (m : DockWidgetModel) (dw : DockWidget) (index : Z).

Lemma count_nonneg m : 0 ≤ count m.
Proof. unfold count. lia. Qed.

Lemma dockWidgetAt_in_range m index :
  0 ≤ index < count m →
  dockWidgetAt m index = m_dockWidgets m !! Z.to_nat index.
Proof.
  intros Hi. unfold dockWidgetAt.
  destruct (index <? 0) eqn:E1; [lia|].
  destruct (index >=? count m) eqn:E2; [lia | done].
Qed.

Lemma dockWidgetAt_out_of_range m index :
  ¬ (0 ≤ index < count m) → dockWidgetAt m index = None.
Proof.
  intros Hi. unfold dockWidgetAt.
  destruct (index <? 0) eqn:E1; [done|].
  destruct (index >=? count m) eqn:E2; [done | lia].
Qed.

Lemma dockWidgetAt_Some m index dw :
  dockWidgetAt m index = Some dw →
  0 ≤ index < count m ∧ m_dockWidgets m !! Z.to_nat index = Some dw.
Proof.
  intros H. destruct (decide (0 ≤ index < count m)) as [Hi|Hi].
  - by rewrite dockWidgetAt_in_range in H.
  - by rewrite dockWidgetAt_out_of_range in H.
Qed.

Lemma dockWidgetAt_elem_of m index dw :
  dockWidgetAt m index = Some dw → dw ∈ m_dockWidgets m.
Proof.
  intros [_ H]%dockWidgetAt_Some. by eapply list_elem_of_lookup_2.
Qed.

Lemma indexOf_range m (p : option DockWidget) : -1 ≤ indexOf m p < count m.
Proof.
  destruct p as [d|]; simpl.
  - apply QVector_indexOf_range.
  - pose proof (count_nonneg m). lia.
Qed.

(** Looking up the position [indexOf] reports gives the pointer back, for a
    null pointer and for a widget of the vector. *)
Lemma dockWidgetAt_indexOf m (p : option DockWidget) :
  (∀ d, p = Some d → d ∈ m_dockWidgets m) →
  dockWidgetAt m (indexOf m p) = p.
Proof.
  intros Hp. destruct p as [d|]; simpl.
  - specialize (Hp d eq_refl).
    pose proof (QVector_indexOf_range (m_dockWidgets m) d) as Hr.
    assert (QVector_indexOf (m_dockWidgets m) d ≠ -1)
      by (intros E%QVector_indexOf_minus_one; done).
    rewrite dockWidgetAt_in_range by (unfold count; lia).
    by apply QVector_lookup_indexOf.
  - apply dockWidgetAt_out_of_range. lia.
Qed.

(** A widget that is not in the vector resolves to the null pointer. *)
Lemma dockWidgetAt_indexOf_absent m dw :
  dw ∉ m_dockWidgets m → dockWidgetAt m (indexOf m (Some dw)) = None.
Proof.
  intros Hd. simpl. rewrite QVector_indexOf_absent by done.
  apply dockWidgetAt_out_of_range. lia.
Qed.

(** *** remove *)

Lemma set_removeGuard_restore m :
  set_removeGuard (m_removeGuard m) (set_removeGuard true m) = m.
Proof. by destruct m. Qed.

Lemma disconnect_all_eq cs m :
  disconnect_all cs m
  = Ok tt (set_qt_connections (disconnected cs (qt_connections m)) m) [].
Proof.
  revert m. induction cs as [|c cs IH]; intros m.
  - by destruct m.
  - simpl. unfold bind, disconnect, modify. by rewrite IH.
Qed.

Lemma remove_absent dw m :
  dw ∉ m_dockWidgets m → remove dw m = Ok tt m [].
Proof.
  intros Hd. unfold remove, with_removeGuard, bind, gets, modify, when, emit, ret.
  simpl. rewrite QVector_indexOf_absent by done. simpl.
  by rewrite set_removeGuard_restore.
Qed.

Lemma remove_present dw m :
  dw ∈ m_dockWidgets m →
  remove dw m
  = Ok tt (removed dw m) (removal_events (QVector_indexOf (m_dockWidgets m) dw)).
Proof.
  intros Hd. unfold remove, with_removeGuard, bind, gets, modify, when, emit, ret.
  simpl. destruct (QVector_indexOf (m_dockWidgets m) dw =? -1) eqn:E.
  { apply Z.eqb_eq, QVector_indexOf_minus_one in E. done. }
  rewrite disconnect_all_eq. by destruct m.
Qed.

(** *** insert *)

Lemma insert_present dw index m :
  dw ∈ m_dockWidgets m →
  insert dw index m = Ok false m [qWarning ShouldntHappen].
Proof.
  intros Hd%QVector_contains_true.
  unfold insert, bind, gets, contains, emit, ret. by rewrite Hd.
Qed.

Lemma insert_absent dw index m :
  dw ∉ m_dockWidgets m → 0 ≤ index ≤ count m →
  insert dw index m = Ok true (inserted dw index m) (insertion_events index).
Proof.
  intros Hd%QVector_contains_false Hi.
  unfold insert, bind, gets, contains, connect, modify, q_assert, emit, ret.
  rewrite Hd. simpl. unfold count at 1. simpl. fold (count m).
  destruct (0 <=? index) eqn:E1; [|lia].
  destruct (index <=? count m) eqn:E2; [|lia].
  done.
Qed.

Lemma insert_out_of_range dw index m :
  dw ∉ m_dockWidgets m → ¬ (0 ≤ index ≤ count m) →
  insert dw index m = QtAssert.
Proof.
  intros Hd%QVector_contains_false Hi.
  unfold insert, bind, gets, contains, connect, modify, q_assert, emit, ret.
  rewrite Hd. simpl. unfold count at 1. simpl. fold (count m).
  destruct (0 <=? index) eqn:E1; [|done].
  destruct (index <=? count m) eqn:E2; [lia|done].
Qed.

End Operations.

(** *** setCurrentIndex and setCurrentDockWidget *)

Section Current.
Implicit Types (m : DockWidgetModel) (dw : DockWidget) (index : Z)
               (p : option DockWidget).

Lemma setCurrentIndex_unfold fuel index :
  setCurrentIndex (S fuel) index
  = (dw <- gets (λ m, dockWidgetAt m index) ;;
     cur <- gets m_currentDockWidget ;;
     if decide (cur ≠ dw) then
       setCurrentDockWidget fuel dw ;;
       emit (controller_setCurrentIndex index)
     else ret tt)%model.
Proof. reflexivity. Qed.

Lemma setCurrentDockWidget_unfold fuel p :
  setCurrentDockWidget (S fuel) p
  = (old <- gets m_currentDockWidget ;;
     match old with
     | Some c => emit (setVisible c false)
     | None => ret tt
     end ;;
     modify (set_currentDockWidget p) ;;
     idx <- gets (λ m, indexOf m p) ;;
     setCurrentIndex fuel idx ;;
     cur <- gets m_currentDockWidget ;;
     match cur with
     | Some c =>
         emit (enterSettingCurrent c) ;;
         emit (setVisible c true) ;;
         emit (leaveSettingCurrent c)
     | None => ret tt
     end)%model.
Proof. reflexivity. Qed.

(** The index resolves to the current widget: nothing happens. *)
Lemma setCurrentIndex_same fuel index m :
  m_currentDockWidget m = dockWidgetAt m index →
  setCurrentIndex (S fuel) index m = Ok tt m [].
Proof.
  intros Heq. rewrite setCurrentIndex_unfold. unfold bind, gets, ret. simpl.
  destruct (decide (m_currentDockWidget m ≠ dockWidgetAt m index)); done.
Qed.

(** [setCurrentDockWidget] on the null pointer or on a widget of the vector:
    the nested [setCurrentIndex] finds the new current widget at the index it
    is given and returns at once. *)
Lemma setCurrentDockWidget_member fuel p m :
  (∀ d, p = Some d → d ∈ m_dockWidgets m) →
  setCurrentDockWidget (S (S fuel)) p m
  = Ok tt (set_currentDockWidget p m)
          (hide_events (m_currentDockWidget m) ++ show_events p).
Proof.
  intros Hp. rewrite setCurrentDockWidget_unfold.
  assert (setCurrentIndex (S fuel) (indexOf (set_currentDockWidget p m) p)
            (set_currentDockWidget p m)
          = Ok tt (set_currentDockWidget p m) []) as Hnested.
  { apply setCurrentIndex_same. symmetry. by apply (dockWidgetAt_indexOf m p). }
  unfold bind, gets, modify, emit, ret.
  destruct (m_currentDockWidget m) as [c|]; cbv beta iota;
    rewrite Hnested; by destruct p.
Qed.

(** [setCurrentDockWidget] on a widget that is not in the vector: the nested
    [setCurrentIndex(-1)] resets the current widget to null, and nothing is
    shown. *)
Lemma setCurrentDockWidget_absent fuel dw m :
  dw ∉ m_dockWidgets m →
  setCurrentDockWidget (S (S (S (S fuel)))) (Some dw) m
  = Ok tt (set_currentDockWidget None m)
          (hide_events (m_currentDockWidget m)
             ++ [setVisible dw false; controller_setCurrentIndex (-1)]).
Proof.
  intros Hd. rewrite setCurrentDockWidget_unfold.
  pose (m1 := set_currentDockWidget (Some dw) m).
  assert (setCurrentIndex (S (S (S fuel))) (indexOf m1 (Some dw)) m1
          = Ok tt (set_currentDockWidget None m)
               [setVisible dw false; controller_setCurrentIndex (-1)]) as Hnested.
  { rewrite setCurrentIndex_unfold. unfold bind, gets.
    assert (dockWidgetAt m1 (indexOf m1 (Some dw)) = None) as ->
      by (by apply (dockWidgetAt_indexOf_absent m)).
    cbv beta iota.
    destruct (decide (m_currentDockWidget m1 ≠ None)) as [_|Hcontra];
      [|by destruct Hcontra].
    rewrite setCurrentDockWidget_member by done.
    unfold emit. subst m1. simpl.
    rewrite QVector_indexOf_absent by done. by destruct m. }
  unfold bind, gets, modify, emit, ret.
  destruct (m_currentDockWidget m) as [c|]; cbv beta iota; fold m1;
    rewrite Hnested; done.
Qed.

(** The index resolves to another widget, or to none: the previous current
    widget is hidden, the new one shown, and the controller told. *)
Lemma setCurrentIndex_change fuel index m :
  m_currentDockWidget m ≠ dockWidgetAt m index →
  setCurrentIndex (S (S (S fuel))) index m
  = Ok tt (set_currentDockWidget (dockWidgetAt m index) m)
          (hide_events (m_currentDockWidget m)
             ++ show_events (dockWidgetAt m index)
             ++ [controller_setCurrentIndex index]).
Proof.
  intros Hne. rewrite setCurrentIndex_unfold. unfold bind, gets. cbv beta iota.
  destruct (decide (m_currentDockWidget m ≠ dockWidgetAt m index)); [|done].
  rewrite setCurrentDockWidget_member
    by (intros d Hd; by eapply dockWidgetAt_elem_of).
  unfold emit. by rewrite <- app_assoc.
Qed.

(** [setCurrentIndex] returns on every state and every index, with three
    levels of fuel or more, and always leaves the resolved widget current. *)
Lemma setCurrentIndex_total fuel index m :
  ∃ evs, setCurrentIndex (S (S (S fuel))) index m
         = Ok tt (set_currentDockWidget (dockWidgetAt m index) m) evs.
Proof.
  destruct (decide (m_currentDockWidget m = dockWidgetAt m index)) as [Heq|Hne].
  - exists []. rewrite setCurrentIndex_same by done.
    rewrite <- Heq. by destruct m.
  - eexists. by apply setCurrentIndex_change.
Qed.

(** *** currentIndex *)

Lemma currentIndex_null m :
  m_currentDockWidget m = None → currentIndex m = Ok (-1) m [].
Proof. intros H. unfold currentIndex, bind, gets, ret. by rewrite H. Qed.

Lemma currentIndex_member m dw :
  m_currentDockWidget m = Some dw → dw ∈ m_dockWidgets m →
  currentIndex m = Ok (QVector_indexOf (m_dockWidgets m) dw) m [].
Proof.
  intros H Hd. unfold currentIndex, bind, gets, when, emit, ret. rewrite H. simpl.
  destruct (QVector_indexOf (m_dockWidgets m) dw =? -1) eqn:E; [|done].
  apply Z.eqb_eq, QVector_indexOf_minus_one in E. done.
Qed.

(** The defensive branch: a current widget that is not in the vector. *)
Lemma currentIndex_dangling m dw :
  m_currentDockWidget m = Some dw → dw ∉ m_dockWidgets m →
  currentIndex m = Ok (-1) m [qWarning (UnexpectedNullIndex dw (count m))].
Proof.
  intros H Hd. unfold currentIndex, bind, gets, when, emit, ret. rewrite H. simpl.
  by rewrite QVector_indexOf_absent.
Qed.

End Current.

(** ** Invariants of the collection *)

Section Invariants.
Implicit Types (m : DockWidgetModel) (dw : DockWidget) (index : Z)
               (l : list DockWidget) (c : Connection).

(** Settles a goal on multiplicities once the case of the sender is fixed. *)
Local Ltac count_connections :=
  repeat case_decide; simplify_eq; try done; try lia; exfalso; intuition congruence.

Lemma expected_connections_lookup l dw :
  expected_connections l !! dw
  = if decide (dw ∈ l) then Some (subscriptions_of dw) else None.
Proof.
  unfold expected_connections. induction l as [|x l IH].
  - rewrite fmap_nil, list_to_map_nil, lookup_empty.
    destruct (decide (dw ∈ [])) as [H|]; [|done].
    by apply elem_of_nil in H.
  - rewrite fmap_cons, list_to_map_cons, lookup_insert. destruct (decide (x = dw)) as [->|Hne].
    + rewrite decide_True by apply list_elem_of_here. done.
    + rewrite IH. destruct (decide (dw ∈ l)) as [Hin|Hnin].
      * rewrite decide_True by (by apply list_elem_of_further). done.
      * rewrite decide_False; [done|].
        intros [?|?]%elem_of_cons; [congruence | done].
Qed.

Lemma expected_qt_connections_multiplicity l c :
  NoDup l →
  multiplicity c (expected_qt_connections l)
  = if decide (conn_sender c ∈ l) then 1%nat else 0%nat.
Proof.
  unfold expected_qt_connections.
  induction 1 as [|x l Hx Hnd IH].
  - change ([] ≫= subscriptions_of) with (@nil Connection).
    rewrite list_to_set_disj_nil, multiplicity_empty.
    destruct (decide (conn_sender c ∈ [])) as [H|]; [|done].
    by apply elem_of_nil in H.
  - rewrite bind_cons, list_to_set_disj_app. unfold subscriptions_of at 1.
    rewrite !list_to_set_disj_cons, list_to_set_disj_nil.
    rewrite !multiplicity_disj_union, !multiplicity_singleton, multiplicity_empty.
    rewrite IH. destruct c as [s sg]. simpl.
    pose proof (elem_of_cons l s x) as Hmem.
    destruct sg; count_connections.
Qed.

Lemma well_formed_new_model : well_formed new_model.
Proof. split_and!; [constructor | done | done]. Qed.

Lemma well_formed_inserted dw index m :
  well_formed m → dw ∉ m_dockWidgets m → well_formed (inserted dw index m).
Proof.
  intros (Hnd & Hc & Hq) Hd.
  assert (NoDup (QVector_insert index dw (m_dockWidgets m))) as Hnd'
    by (by apply QVector_insert_NoDup).
  split_and!; simpl; [done | |].
  - apply map_eq. intros k. rewrite Hc, lookup_insert, !expected_connections_lookup.
    pose proof (QVector_insert_elem_of index (m_dockWidgets m) dw k) as Hmem.
    count_connections.
  - apply gmultiset_eq. intros c.
    rewrite !multiplicity_disj_union, !multiplicity_singleton, Hq.
    rewrite !expected_qt_connections_multiplicity by done.
    destruct c as [s sg]. simpl.
    pose proof (QVector_insert_elem_of index (m_dockWidgets m) dw s) as Hmem.
    destruct sg; count_connections.
Qed.

(** In a well-formed model, removing a widget disconnects its two
    connections and no other. *)
Lemma well_formed_removed dw m :
  well_formed m → dw ∈ m_dockWidgets m → well_formed (removed dw m).
Proof.
  intros (Hnd & Hc & Hq) Hd.
  assert (NoDup (QVector_removeOne (m_dockWidgets m) dw)) as Hnd'
    by (by apply QVector_removeOne_NoDup).
  split_and!; simpl; [done | |].
  - apply map_eq. intros k. rewrite Hc, lookup_delete, !expected_connections_lookup.
    pose proof (QVector_removeOne_elem_of (m_dockWidgets m) dw k Hnd) as Hmem.
    count_connections.
  - rewrite Hc, expected_connections_lookup, decide_True by done. simpl.
    apply gmultiset_eq. intros c.
    rewrite !multiplicity_difference, !multiplicity_singleton, Hq.
    rewrite !expected_qt_connections_multiplicity by done.
    destruct c as [s sg]. simpl.
    pose proof (QVector_removeOne_elem_of (m_dockWidgets m) dw s Hnd) as Hmem.
    destruct sg; count_connections.
Qed.

Lemma well_formed_set_currentDockWidget p m :
  well_formed m → well_formed (set_currentDockWidget p m).
Proof. done. Qed.

(** A widget of a well-formed model has exactly one live connection per
    signal; any other widget has none. *)
Lemma well_formed_multiplicity m dw sg :
  well_formed m →
  multiplicity (Conn dw sg) (qt_connections m)
  = if decide (dw ∈ m_dockWidgets m) then 1%nat else 0%nat.
Proof.
  intros (Hnd & _ & Hq). rewrite Hq.
  by rewrite expected_qt_connections_multiplicity.
Qed.

End Invariants.

(** ** Signals of the dock widgets *)

Section Signals.
Implicit Types (m : DockWidgetModel) (dw : DockWidget).

Lemma set_qt_connections_same m : set_qt_connections (qt_connections m) m = m.
Proof. by destruct m. Qed.

(** A widget outside a well-formed model has no connection to drop. *)
Lemma no_connection_of_absent dw m :
  well_formed m → dw ∉ m_dockWidgets m →
  filter (λ c, conn_sender c ≠ dw) (qt_connections m) = qt_connections m.
Proof.
  intros Hwf Hd. apply gmultiset_eq. intros [s sg].
  rewrite multiplicity_filter. simpl.
  destruct (decide (s ≠ dw)) as [|Heq%dec_stable]; [done|]. subst s.
  by rewrite well_formed_multiplicity, decide_False.
Qed.

(** The [destroyed] signal of a widget of the model runs [remove] once. *)
Lemma on_destroyed_member dw m :
  well_formed m → dw ∈ m_dockWidgets m →
  on_destroyed dw m
  = Ok tt (removed dw m) (removal_events (QVector_indexOf (m_dockWidgets m) dw)).
Proof.
  intros Hwf Hd.
  assert (multiplicity (Conn dw destroyed) (qt_connections m) = 1%nat) as Hone
    by (by rewrite well_formed_multiplicity, decide_True).
  assert (Conn dw destroyed ∈ qt_connections m) as Hlive
    by (apply elem_of_multiplicity; lia).
  unfold on_destroyed, emit_signal, bind, gets. rewrite Hone.
  unfold deliver, bind, gets, when, slot_of, modify, ret.
  cbn [conn_signal conn_sender].
  rewrite (bool_decide_eq_true_2 _ Hlive), remove_present by done.
  rewrite no_connection_of_absent.
  - by rewrite set_qt_connections_same, !app_nil_r.
  - by apply well_formed_removed.
  - simpl. destruct Hwf as (Hnd & _).
    intros [_ ?]%QVector_removeOne_elem_of; done.
Qed.

(** The [destroyed] signal of any other widget reaches no slot. *)
Lemma on_destroyed_absent dw m :
  well_formed m → dw ∉ m_dockWidgets m → on_destroyed dw m = Ok tt m [].
Proof.
  intros Hwf Hd.
  unfold on_destroyed, emit_signal, bind, gets.
  rewrite well_formed_multiplicity, decide_False by done.
  unfold deliver, modify, ret.
  rewrite no_connection_of_absent by done.
  by rewrite set_qt_connections_same.
Qed.

End Signals.

(** ** Reachable states *)

Lemma insert_well_formed dw index m b m' evs :
  well_formed m → insert dw index m = Ok b m' evs → well_formed m'.
Proof.
  intros Hwf Hins. destruct (decide (dw ∈ m_dockWidgets m)) as [Hd|Hd].
  - rewrite insert_present in Hins by done. by simplify_eq.
  - destruct (decide (0 ≤ index ≤ count m)) as [Hi|Hi].
    + rewrite insert_absent in Hins by done. simplify_eq.
      by apply well_formed_inserted.
    + by rewrite insert_out_of_range in Hins.
Qed.

Lemma remove_well_formed dw m m' evs :
  well_formed m → remove dw m = Ok tt m' evs → well_formed m'.
Proof.
  intros Hwf Hrem. destruct (decide (dw ∈ m_dockWidgets m)) as [Hd|Hd].
  - rewrite remove_present in Hrem by done. simplify_eq.
    by apply well_formed_removed.
  - rewrite remove_absent in Hrem by done. by simplify_eq.
Qed.

(** Whatever the fuel, a call of [setCurrentIndex] that returns has made the
    resolved widget current and changed nothing else; with less than three
    levels a call that has to change the current widget runs out of fuel. *)
Lemma setCurrentIndex_Ok fuel index m m' evs :
  setCurrentIndex fuel index m = Ok tt m' evs →
  m' = set_currentDockWidget (dockWidgetAt m index) m.
Proof.
  destruct (decide (m_currentDockWidget m = dockWidgetAt m index)) as [Heq|Hne].
  - destruct fuel as [|fuel]; [done|].
    rewrite setCurrentIndex_same by done. intros ?; simplify_eq.
    rewrite <- Heq. by destruct m'.
  - destruct fuel as [|[|[|fuel]]].
    + done.
    + rewrite setCurrentIndex_unfold. unfold bind, gets. cbv beta iota.
      by destruct (decide _).
    + rewrite setCurrentIndex_unfold. unfold bind, gets. cbv beta iota.
      destruct (decide _); [|done].
      rewrite setCurrentDockWidget_unfold.
      unfold bind, gets, modify, emit, ret.
      by destruct (m_currentDockWidget m).
    + rewrite setCurrentIndex_change by done. by intros ?; simplify_eq.
Qed.

Lemma setCurrentIndex_well_formed fuel index m m' evs :
  well_formed m → setCurrentIndex fuel index m = Ok tt m' evs → well_formed m'.
Proof. intros Hwf ->%setCurrentIndex_Ok. done. Qed.

Lemma on_destroyed_well_formed dw m m' evs :
  well_formed m → on_destroyed dw m = Ok tt m' evs → well_formed m'.
Proof.
  intros Hwf Hd. destruct (decide (dw ∈ m_dockWidgets m)) as [Hin|Hnin].
  - rewrite on_destroyed_member in Hd by done. simplify_eq.
    by apply well_formed_removed.
  - rewrite on_destroyed_absent in Hd by done. by simplify_eq.
Qed.

(** Every reachable state is well formed. *)
Lemma reachable_well_formed m : reachable m → well_formed m.
Proof.
  induction 1;
    eauto using well_formed_new_model, insert_well_formed, remove_well_formed,
                setCurrentIndex_well_formed, on_destroyed_well_formed.
Qed.

(** ** Removal keeps the other widgets and the current pointer *)

Lemma QVector_removeOne_other (l : list DockWidget) (x y : DockWidget) :
  y ≠ x → y ∈ l → y ∈ QVector_removeOne l x.
Proof.
  intros Hne. induction l as [|z l IH]; simpl; [done|].
  intros [->|Hy]%elem_of_cons.
  - destruct (decide (z = x)); [done | apply list_elem_of_here].
  - destruct (decide (z = x)); [done | by apply list_elem_of_further, IH].
Qed.

Lemma remove_keeps_others dw m :
  ∃ m' evs, remove dw m = Ok tt m' evs ∧ keeps_others dw m m'.
Proof.
  destruct (decide (dw ∈ m_dockWidgets m)) as [Hd|Hd].
  - eexists _, _. split; [by apply remove_present|].
    split; [done|]. simpl. intros x ??. by apply QVector_removeOne_other.
  - eexists _, _. split; [by apply remove_absent|]. by split.
Qed.

Lemma deliver_destroyed_keeps_others n dw m :
  ∃ m' evs, deliver n (Conn dw destroyed) m = Ok tt m' evs ∧ keeps_others dw m m'.
Proof.
  revert m. induction n as [|n IH]; intros m.
  - eexists _, _. split; [done|]. by split.
  - assert (∃ m1 e1, when (bool_decide (Conn dw destroyed ∈ qt_connections m))
                          (slot_of (Conn dw destroyed)) m = Ok tt m1 e1
                     ∧ keeps_others dw m m1) as (m1 & e1 & Hs & Hc1 & Hk1).
    { destruct (bool_decide _); [apply remove_keeps_others|].
      eexists _, _. split; [done|]. by split. }
    destruct (IH m1) as (m2 & e2 & Hd & Hc2 & Hk2).
    exists m2, (e1 ++ e2). split.
    + simpl. unfold bind at 1. unfold gets at 1. cbv beta iota.
      unfold bind. rewrite Hs, Hd. done.
    + split; [congruence | auto].
Qed.

Lemma on_destroyed_keeps_others dw m :
  ∃ m' evs, on_destroyed dw m = Ok tt m' evs ∧ keeps_others dw m m'.
Proof.
  destruct (deliver_destroyed_keeps_others
              (multiplicity (Conn dw destroyed) (qt_connections m)) dw m)
    as (m1 & e1 & Hd & Hk).
  exists (set_qt_connections
            (filter (λ c, conn_sender c ≠ dw) (qt_connections m1)) m1), e1.
  split; [|exact Hk].
  unfold on_destroyed, emit_signal, bind, gets, modify. rewrite Hd.
  by rewrite app_nil_r.
Qed.

(** * The claims *)

(** ** C1: the current widget is in the sequence *)

Lemma single_current_reachable : reachable single_current.
Proof.
  apply (reachable_setCurrentIndex (set_currentDockWidget None single_current)
           3%nat 0 _ (show_events (Some 1%positive) ++ [controller_setCurrentIndex 0]));
    [|by vm_compute].
  apply (reachable_insert new_model 1%positive 0 true _ (insertion_events 0));
    [constructor | by vm_compute].
Qed.

(** C1, as stated, fails: [remove] never touches [m_currentDockWidget], so
    removing the current widget leaves a current widget that is no longer in
    the sequence; [currentIndex] then takes its defensive branch. *)
Lemma C1_remove_current_breaks_invariant :
  current_in_sequence single_current
  ∧ remove 1%positive single_current
    = Ok tt (removed 1%positive single_current) (removal_events 0)
  ∧ m_currentDockWidget (removed 1%positive single_current) = Some 1%positive
  ∧ m_dockWidgets (removed 1%positive single_current) = []
  ∧ ¬ current_in_sequence (removed 1%positive single_current)
  ∧ currentIndex (removed 1%positive single_current)
    = Ok (-1) (removed 1%positive single_current)
         [qWarning (UnexpectedNullIndex 1%positive 0)].
Proof.
  split_and!; try by vm_compute.
  - compute_done.
  - unfold current_in_sequence. simpl. apply not_elem_of_nil.
Qed.

(** C1, amended: [insert] and [setCurrentIndex] preserve "the current widget,
    when set, is in the sequence", and so do [remove] and the removal
    triggered by destruction for every widget but the current one. There is
    one current pointer, and [currentIndex] is -1 exactly when it is null;
    otherwise it is the position of the current widget. Each operation is
    described on all its outcomes: [insert] can only stop on the range
    assertion of Qt, [setCurrentIndex] only with less than three levels of
    fuel. *)
Theorem C1_current_invariant_preserved m :
  current_in_sequence m →
  (∀ dw index,
     match insert dw index m with
     | Ok _ m' _ => current_in_sequence m'
     | QtAssert => ¬ (0 ≤ index ≤ count m)
     | OutOfFuel => False
     end)
  ∧ (∀ fuel index,
       match setCurrentIndex fuel index m with
       | Ok _ m' _ => current_in_sequence m'
       | QtAssert => False
       | OutOfFuel => (fuel < 3)%nat
       end)
  ∧ (∀ dw, m_currentDockWidget m ≠ Some dw →
       ∃ m' evs, remove dw m = Ok tt m' evs ∧ current_in_sequence m')
  ∧ (∀ dw, m_currentDockWidget m ≠ Some dw →
       ∃ m' evs, on_destroyed dw m = Ok tt m' evs ∧ current_in_sequence m')
  ∧ match m_currentDockWidget m with
    | None => currentIndex m = Ok (-1) m []
    | Some c => ∃ i, 0 ≤ i < count m ∧ m_dockWidgets m !! Z.to_nat i = Some c
                     ∧ currentIndex m = Ok i m []
    end.
Proof.
  intros Hinv.
  assert (∀ dw m', m_currentDockWidget m ≠ Some dw → keeps_others dw m m' →
                   current_in_sequence m') as Hkeep.
  { intros dw m' Hne [Hcur Hothers]. unfold current_in_sequence in *.
    rewrite Hcur. destruct (m_currentDockWidget m) as [c|]; [|done].
    apply Hothers; [congruence | done]. }
  split_and!.
  - intros dw index. destruct (decide (dw ∈ m_dockWidgets m)) as [Hd|Hd].
    + by rewrite insert_present.
    + destruct (decide (0 ≤ index ≤ count m)) as [Hi|Hi].
      * rewrite insert_absent by done. unfold current_in_sequence in *. simpl.
        destruct (m_currentDockWidget m); [|done].
        apply QVector_insert_elem_of. by right.
      * by rewrite insert_out_of_range.
  - intros fuel index.
    destruct (setCurrentIndex fuel index m) as [[] m' evs| |] eqn:E.
    + apply setCurrentIndex_Ok in E as ->. unfold current_in_sequence. simpl.
      destruct (dockWidgetAt m index) as [d|] eqn:Hd; [|done].
      by eapply dockWidgetAt_elem_of.
    + destruct fuel as [|[|[|fuel]]];
        [done | | | by destruct (setCurrentIndex_total fuel index m) as [? ?]; congruence].
      * rewrite setCurrentIndex_unfold in E. unfold bind, gets in E.
        cbv beta iota in E. by destruct (decide _).
      * rewrite setCurrentIndex_unfold in E. unfold bind, gets in E.
        cbv beta iota in E. destruct (decide _); [|done].
        rewrite setCurrentDockWidget_unfold in E.
        unfold bind, gets, modify, emit, ret in E.
        by destruct (m_currentDockWidget m).
    + destruct fuel as [|[|[|fuel]]]; [lia..|].
      destruct (setCurrentIndex_total fuel index m) as [? ?]; congruence.
  - intros dw Hne. destruct (remove_keeps_others dw m) as (m' & evs & Hr & Hk).
    exists m', evs. split; [done | by eapply Hkeep].
  - intros dw Hne. destruct (on_destroyed_keeps_others dw m) as (m' & evs & Hr & Hk).
    exists m', evs. split; [done | by eapply Hkeep].
  - unfold current_in_sequence in Hinv.
    destruct (m_currentDockWidget m) as [c|] eqn:Hc.
    + destruct (QVector_indexOf_present _ _ Hinv) as (n & Hn & _ & Hidx).
      exists (Z.of_nat n). split; [|split].
      * apply lookup_lt_Some in Hn. unfold count. lia.
      * by rewrite Nat2Z.id.
      * rewrite <- Hidx. by apply currentIndex_member.
    + by apply currentIndex_null.
Qed.

Lemma C1_current_invariant_preserved_witness :
  current_in_sequence single_current
  ∧ (∀ dw index,
     match insert dw index single_current with
     | Ok _ m' _ => current_in_sequence m'
     | QtAssert => ¬ (0 ≤ index ≤ count single_current)
     | OutOfFuel => False
     end)
  ∧ (∀ fuel index,
       match setCurrentIndex fuel index single_current with
       | Ok _ m' _ => current_in_sequence m'
       | QtAssert => False
       | OutOfFuel => (fuel < 3)%nat
       end)
  ∧ (∀ dw, m_currentDockWidget single_current ≠ Some dw →
       ∃ m' evs, remove dw single_current = Ok tt m' evs ∧ current_in_sequence m')
  ∧ (∀ dw, m_currentDockWidget single_current ≠ Some dw →
       ∃ m' evs, on_destroyed dw single_current = Ok tt m' evs ∧ current_in_sequence m')
  ∧ match m_currentDockWidget single_current with
    | None => currentIndex single_current = Ok (-1) single_current []
    | Some c => ∃ i, 0 ≤ i < count single_current ∧ m_dockWidgets single_current !! Z.to_nat i = Some c
                     ∧ currentIndex single_current = Ok i single_current []
    end.
Proof.
  assert (current_in_sequence single_current) as H by compute_done.
  split; [exact H | exact (C1_current_invariant_preserved single_current H)].
Defined.

(** ** C2: removing an absent widget and the reentrancy guard *)

(** A [remove] of an absent widget called inside the guard scope of another
    [remove], as a slot connected to one of its signals would call it. *)
Lemma remove_absent_nested dw m :
  dw ∉ m_dockWidgets m → with_removeGuard (remove dw) m = Ok tt m [].
Proof.
  intros Hd. unfold with_removeGuard, bind, gets, modify, ret.
  rewrite remove_absent by done. by rewrite set_removeGuard_restore.
Qed.

(** C2, as stated, fails: a nested [remove] of an absent widget reports no
    warning. The guard is set on entry, before it is tested, so the test
    [!m_removeGuard] never holds. Shown on the state a nested call finds
    (flag set), and on a call made inside the guard scope of a [remove] on
    the new model. *)
Lemma C2_nested_remove_reports_nothing :
  m_removeGuard removing = true
  ∧ (1%positive ∉ m_dockWidgets removing)
  ∧ ¬ (∃ m' evs, remove 1%positive removing = Ok tt m' evs
                 ∧ (qWarning (NothingToRemove 1%positive) ∈ evs
                    ↔ m_removeGuard removing = true))
  ∧ with_removeGuard (remove 1%positive) new_model = Ok tt new_model [].
Proof.
  split_and!; [done | apply not_elem_of_nil | | by vm_compute].
  intros (m' & evs & Hr & Hw).
  rewrite remove_absent in Hr by apply not_elem_of_nil. simplify_eq.
  destruct Hw as [_ Hw]. specialize (Hw eq_refl). by apply elem_of_nil in Hw.
Qed.

(** C2, amended: a [remove] of an absent widget that is called while a
    [remove] is in progress reports no warning, the guard flag suppressing
    it: this holds for a call that finds the flag set, and for a call made
    inside the guard scope of an outer [remove]. In all cases, nested or
    not, the call completes and leaves the sequence and the guard flag as it
    found them. What a call outside any [remove] reports is not part of the
    statement. *)
Theorem C2_nested_remove_absent_is_silent m h :
  h ∉ m_dockWidgets m →
  (∃ m' evs, remove h m = Ok tt m' evs
             ∧ m_removeGuard m' = m_removeGuard m
             ∧ m_dockWidgets m' = m_dockWidgets m
             ∧ (m_removeGuard m = true → ∀ d, qWarning d ∉ evs))
  ∧ (∃ m' evs, with_removeGuard (remove h) m = Ok tt m' evs
               ∧ m_removeGuard m' = m_removeGuard m
               ∧ m_dockWidgets m' = m_dockWidgets m
               ∧ (∀ d, qWarning d ∉ evs)).
Proof.
  intros Hh. split; exists m, [].
  - split_and!; [by apply remove_absent | done | done |].
    intros _ d. apply not_elem_of_nil.
  - split_and!; [by apply remove_absent_nested | done | done |].
    intros d. apply not_elem_of_nil.
Qed.

Lemma C2_nested_remove_absent_is_silent_witness :
  (1%positive ∉ m_dockWidgets removing)
  ∧ (∃ m' evs, remove 1%positive removing = Ok tt m' evs
               ∧ m_removeGuard m' = m_removeGuard removing
               ∧ m_dockWidgets m' = m_dockWidgets removing
               ∧ (m_removeGuard removing = true → ∀ d, qWarning d ∉ evs))
  ∧ (∃ m' evs, with_removeGuard (remove 1%positive) removing = Ok tt m' evs
               ∧ m_removeGuard m' = m_removeGuard removing
               ∧ m_dockWidgets m' = m_dockWidgets removing
               ∧ (∀ d, qWarning d ∉ evs)).
Proof.
  assert (1%positive ∉ m_dockWidgets removing) as H by compute_done.
  split; [exact H | exact (C2_nested_remove_absent_is_silent removing 1%positive H)].
Defined.

(** ** C3: setCurrentIndex, then currentIndex *)

(** C3: in a model without duplicates, [setCurrentIndex] returns (three
    levels of fuel suffice); after it, [currentIndex] is the index given if
    it was in range, and otherwise -1, the previously current widget having
    been told [setVisible(false)]. *)
Theorem C3_setCurrentIndex_then_currentIndex fuel m index :
  NoDup (m_dockWidgets m) → (3 ≤ fuel)%nat →
  ∃ m' evs,
    setCurrentIndex fuel index m = Ok tt m' evs
    ∧ if decide (0 ≤ index < count m)
      then currentIndex m' = Ok index m' []
      else currentIndex m' = Ok (-1) m' []
           ∧ ∀ c, m_currentDockWidget m = Some c → setVisible c false ∈ evs.
Proof.
  intros Hnd Hfuel.
  destruct fuel as [|[|[|fuel]]]; [lia..|].
  destruct (decide (0 ≤ index < count m)) as [Hi|Hi].
  - destruct (setCurrentIndex_total fuel index m) as [evs Hs].
    eexists _, evs. split; [exact Hs|].
    destruct (m_dockWidgets m !! Z.to_nat index) as [d|] eqn:Hd.
    2:{ apply lookup_ge_None in Hd. unfold count in Hi. lia. }
    rewrite dockWidgetAt_in_range, Hd by done.
    rewrite (currentIndex_member _ d); simpl; [|done|by eapply list_elem_of_lookup_2].
    rewrite (QVector_indexOf_lookup _ _ _ Hnd Hd). by rewrite Z2Nat.id by lia.
  - pose proof (dockWidgetAt_out_of_range m index Hi) as Hnone.
    destruct (m_currentDockWidget m) as [c|] eqn:Hc.
    + eexists _, _. split.
      * apply setCurrentIndex_change. congruence.
      * rewrite Hnone. split; [by apply currentIndex_null|].
        intros c' Hc'. simplify_eq. rewrite Hc. simpl. apply list_elem_of_here.
    + exists m, []. split.
      * apply setCurrentIndex_same. congruence.
      * split; [by apply currentIndex_null | done].
Qed.

Lemma C3_setCurrentIndex_then_currentIndex_witness :
  NoDup (m_dockWidgets two_tabs) ∧ (3 ≤ 3)%nat
  ∧ ∃ m' evs,
      setCurrentIndex 3 7 two_tabs = Ok tt m' evs
      ∧ if decide (0 ≤ 7 < count two_tabs)
        then currentIndex m' = Ok 7 m' []
        else currentIndex m' = Ok (-1) m' []
             ∧ ∀ c, m_currentDockWidget two_tabs = Some c → setVisible c false ∈ evs.
Proof.
  assert (NoDup (m_dockWidgets two_tabs)) as H1 by compute_done.
  assert (3 ≤ 3)%nat as H2 by lia.
  split; [exact H1|]. split; [exact H2|].
  exact (C3_setCurrentIndex_then_currentIndex 3 two_tabs 7 H1 H2).
Defined.

(** ** C4: destruction removes the widget once *)

(** C4: when a widget of a well-formed model (as every reachable model is)
    is deleted, its [destroyed] signal removes it: the call returns, the
    widget is gone from the sequence while the others keep their order,
    [dockWidgetRemoved] and [countChanged] are emitted once each, the model
    stays well formed, and the widget has no connection left through which
    it could be removed again. *)
Theorem C4_destroyed_removes_once m h :
  well_formed m → h ∈ m_dockWidgets m →
  ∃ m' evs,
    on_destroyed h m = Ok tt m' evs
    ∧ m_dockWidgets m' = filter (λ x, x ≠ h) (m_dockWidgets m)
    ∧ (h ∉ m_dockWidgets m')
    ∧ occurrences dockWidgetRemoved evs = 1%nat
    ∧ occurrences countChanged evs = 1%nat
    ∧ (∀ sg, multiplicity (Conn h sg) (qt_connections m') = 0%nat)
    ∧ well_formed m'
    ∧ on_destroyed h m' = Ok tt m' [].
Proof.
  intros Hwf Hh. pose proof Hwf as (Hnd & _).
  assert (h ∉ m_dockWidgets (removed h m)) as Hgone.
  { simpl. intros [_ ?]%QVector_removeOne_elem_of; done. }
  assert (well_formed (removed h m)) as Hwf' by (by apply well_formed_removed).
  eexists _, _. split; [by apply on_destroyed_member|].
  split_and!; try done.
  - simpl. by apply QVector_removeOne_filter.
  - intros sg. by rewrite well_formed_multiplicity, decide_False.
  - by apply on_destroyed_absent.
Qed.

Lemma C4_destroyed_removes_once_witness :
  well_formed two_tabs ∧ 2%positive ∈ m_dockWidgets two_tabs
  ∧ ∃ m' evs,
      on_destroyed 2%positive two_tabs = Ok tt m' evs
      ∧ m_dockWidgets m' = filter (λ x, x ≠ 2%positive) (m_dockWidgets two_tabs)
      ∧ (2%positive ∉ m_dockWidgets m')
      ∧ occurrences dockWidgetRemoved evs = 1%nat
      ∧ occurrences countChanged evs = 1%nat
      ∧ (∀ sg, multiplicity (Conn 2%positive sg) (qt_connections m') = 0%nat)
      ∧ well_formed m'
      ∧ on_destroyed 2%positive m' = Ok tt m' [].
Proof.
  assert (well_formed two_tabs) as H1 by compute_done.
  assert (2%positive ∈ m_dockWidgets two_tabs) as H2 by compute_done.
  split; [exact H1|]. split; [exact H2|].
  exact (C4_destroyed_removes_once two_tabs 2%positive H1 H2).
Defined.

(** ** C5: order preservation *)

(** The model follows the list operations from any state without duplicates
    whose widgets are not inserted again. *)
Lemma run_ops_list_ops ops m :
  NoDup (m_dockWidgets m) →
  NoDup (inserted_handles ops) →
  (∀ h, h ∈ inserted_handles ops → h ∉ m_dockWidgets m) →
  match run_ops ops m with
  | Ok _ m' _ => list_ops ops (m_dockWidgets m) = Some (m_dockWidgets m')
                 ∧ NoDup (m_dockWidgets m')
  | QtAssert => list_ops ops (m_dockWidgets m) = None
  | OutOfFuel => False
  end.
Proof.
  revert m. induction ops as [|[h i|h] ops IH]; intros m Hnd Hops Hfresh.
  - done.
  - change (inserted_handles (op_insert h i :: ops))
      with (h :: inserted_handles ops) in Hops, Hfresh.
    apply NoDup_cons in Hops as [Hh Hops].
    assert (h ∉ m_dockWidgets m) as Hhm by (apply Hfresh, list_elem_of_here).
    simpl. unfold bind at 1. unfold bind at 1. unfold list_splice_in.
    fold (count m). destruct (decide (0 ≤ i ≤ count m)) as [Hi|Hi].
    + rewrite insert_absent by done. unfold ret at 1.
      opose proof* (IH (inserted h i m)) as IH'; [| done | |].
      * by apply QVector_insert_NoDup.
      * intros x Hx [->|Hxm]%QVector_insert_elem_of; [done|].
        by eapply Hfresh; [apply list_elem_of_further|].
      * simpl in IH'. by destruct (run_ops ops (inserted h i m)) as [[] m' evs| |].
    + by rewrite insert_out_of_range.
  - change (inserted_handles (op_remove h :: ops))
      with (inserted_handles ops) in Hops, Hfresh.
    simpl. unfold bind at 1. unfold list_delete.
    rewrite <- QVector_removeOne_filter by done.
    destruct (decide (h ∈ m_dockWidgets m)) as [Hh|Hh].
    + rewrite remove_present by done.
      opose proof* (IH (removed h m)) as IH'; [| done | |].
      * by apply QVector_removeOne_NoDup.
      * intros x Hx [Hxm _]%QVector_removeOne_elem_of; [|done]. by eapply Hfresh.
      * simpl in IH'. by destruct (run_ops ops (removed h m)) as [[] m' evs| |].
    + rewrite remove_absent, QVector_removeOne_absent by done.
      specialize (IH m Hnd Hops Hfresh).
      by destruct (run_ops ops m) as [[] m' evs| |].
Qed.

(** Deleting keeps the remaining widgets in their order. *)
Lemma list_delete_sublist h l : sublist (list_delete h l) l.
Proof. apply sublist_filter. Qed.

(** C5: for a history of [insert] and [remove] calls on the new model that
    inserts pairwise distinct widgets, the model computes what the list
    operations compute: it has a result exactly when every splice position
    exists (otherwise Qt's range assertion stops it), the sequence is then the
    list obtained by splicing and deleting, and [indexOf] returns the
    position of a widget in that list, -1 for a widget that is not in it. *)
Theorem C5_order_preservation ops :
  NoDup (inserted_handles ops) →
  match run_ops ops new_model with
  | Ok _ m _ =>
      list_ops ops [] = Some (m_dockWidgets m)
      ∧ (∀ (n : nat) h, m_dockWidgets m !! n = Some h →
                        indexOf m (Some h) = Z.of_nat n)
      ∧ (∀ h, h ∉ m_dockWidgets m → indexOf m (Some h) = -1)
  | QtAssert => list_ops ops [] = None
  | OutOfFuel => False
  end.
Proof.
  intros Hops.
  opose proof* (run_ops_list_ops ops new_model) as H; [constructor | done | |].
  { intros h _. apply not_elem_of_nil. }
  destruct (run_ops ops new_model) as [[] m evs| |]; [|done..].
  destruct H as [Hl Hnd]. split_and!; [done | |].
  - intros n h Hn. simpl. by apply QVector_indexOf_lookup.
  - intros h Hh. simpl. by apply QVector_indexOf_absent.
Qed.

Lemma C5_order_preservation_witness :
  NoDup (inserted_handles example_history)
  ∧ match run_ops example_history new_model with
    | Ok _ m _ =>
        list_ops example_history [] = Some (m_dockWidgets m)
        ∧ (∀ (n : nat) h, m_dockWidgets m !! n = Some h →
                          indexOf m (Some h) = Z.of_nat n)
        ∧ (∀ h, h ∉ m_dockWidgets m → indexOf m (Some h) = -1)
    | QtAssert => list_ops example_history [] = None
    | OutOfFuel => False
    end.
Proof.
  assert (NoDup (inserted_handles example_history)) as H by compute_done.
  split; [exact H | exact (C5_order_preservation example_history H)].
Defined.

(** ** C6: inserting a widget that is already there *)

Lemma filter_eq_absent (l : list DockWidget) (h : DockWidget) :
  h ∉ l → filter (λ x, x = h) l = [].
Proof.
  induction l as [|x l IH]; [done|].
  intros [Hne Hh]%not_elem_of_cons.
  rewrite filter_cons_False by congruence. by apply IH.
Qed.

(** A widget of a sequence without duplicates is in it once. *)
Lemma NoDup_occurs_once (l : list DockWidget) (h : DockWidget) :
  NoDup l → h ∈ l → length (filter (λ x, x = h) l) = 1%nat.
Proof.
  induction 1 as [|x l Hx Hnd IH]; intros Hh.
  - by apply elem_of_nil in Hh.
  - destruct (decide (x = h)) as [->|Hne].
    + rewrite filter_cons_True by done. simpl. by rewrite filter_eq_absent.
    + rewrite filter_cons_False by done.
      apply elem_of_cons in Hh as [?|?]; [congruence | by apply IH].
Qed.

(** C6: [insert] of a widget that is in the sequence returns [false] and
    changes nothing in the model (sequence, current widget, recorded and live
    connections); its only event is the warning, so no [countChanged]; and in
    a sequence without duplicates the widget is still there once. *)
Theorem C6_insert_present_rejected m h index :
  h ∈ m_dockWidgets m →
  ∃ m' evs,
    insert h index m = Ok false m' evs
    ∧ m' = m
    ∧ evs = [qWarning ShouldntHappen]
    ∧ occurrences countChanged evs = 0%nat
    ∧ (NoDup (m_dockWidgets m) →
       length (filter (λ x, x = h) (m_dockWidgets m')) = 1%nat).
Proof.
  intros Hh. exists m, [qWarning ShouldntHappen].
  split_and!; [by apply insert_present | done.. |].
  intros Hnd. by apply NoDup_occurs_once.
Qed.

Lemma C6_insert_present_rejected_witness :
  2%positive ∈ m_dockWidgets two_tabs
  ∧ ∃ m' evs,
      insert 2%positive 0 two_tabs = Ok false m' evs
      ∧ m' = two_tabs
      ∧ evs = [qWarning ShouldntHappen]
      ∧ occurrences countChanged evs = 0%nat
      ∧ (NoDup (m_dockWidgets two_tabs) →
         length (filter (λ x, x = 2%positive) (m_dockWidgets m')) = 1%nat).
Proof.
  assert (2%positive ∈ m_dockWidgets two_tabs) as H by compute_done.
  split; [exact H | exact (C6_insert_present_rejected two_tabs 2%positive 0 H)].
Defined.

(** ** C7: removing a widget that is not there *)

(** C7: [remove] of a widget that is not in the sequence returns with the
    model unchanged and emits nothing, so neither [dockWidgetRemoved] nor
    [countChanged]. *)
Theorem C7_remove_absent_unchanged m h :
  h ∉ m_dockWidgets m →
  ∃ m' evs,
    remove h m = Ok tt m' evs
    ∧ m_dockWidgets m' = m_dockWidgets m
    ∧ m_currentDockWidget m' = m_currentDockWidget m
    ∧ m' = m
    ∧ occurrences dockWidgetRemoved evs = 0%nat
    ∧ occurrences countChanged evs = 0%nat.
Proof.
  intros Hh. exists m, []. split_and!; [by apply remove_absent | done..].
Qed.

Lemma C7_remove_absent_unchanged_witness :
  (3%positive ∉ m_dockWidgets two_tabs)
  ∧ ∃ m' evs,
      remove 3%positive two_tabs = Ok tt m' evs
      ∧ m_dockWidgets m' = m_dockWidgets two_tabs
      ∧ m_currentDockWidget m' = m_currentDockWidget two_tabs
      ∧ m' = two_tabs
      ∧ occurrences dockWidgetRemoved evs = 0%nat
      ∧ occurrences countChanged evs = 0%nat.
Proof.
  assert (3%positive ∉ m_dockWidgets two_tabs) as H by compute_done.
  split; [exact H | exact (C7_remove_absent_unchanged two_tabs 3%positive H)].
Defined.

(** ** C8: setting the current widget again *)

(** C8: when the index resolves to the widget that is current already,
    [setCurrentIndex] returns with the model unchanged and without any event:
    no [setVisible], no call on the controller. One level of fuel is enough. *)
Theorem C8_setCurrentIndex_same_is_noop fuel m index c :
  (1 ≤ fuel)%nat →
  m_currentDockWidget m = Some c →
  dockWidgetAt m index = Some c →
  setCurrentIndex fuel index m = Ok tt m [].
Proof.
  intros Hfuel Hc Hat. destruct fuel as [|fuel]; [lia|].
  apply setCurrentIndex_same. congruence.
Qed.

Lemma C8_setCurrentIndex_same_is_noop_witness :
  (1 ≤ 1)%nat
  ∧ m_currentDockWidget two_tabs = Some 1%positive
  ∧ dockWidgetAt two_tabs 0 = Some 1%positive
  ∧ setCurrentIndex 1 0 two_tabs = Ok tt two_tabs [].
Proof.
  assert (1 ≤ 1)%nat as H1 by lia.
  assert (m_currentDockWidget two_tabs = Some 1%positive) as H2 by reflexivity.
  assert (dockWidgetAt two_tabs 0 = Some 1%positive) as H3 by reflexivity.
  split_and!; [exact H1 | exact H2 | exact H3 |].
  exact (C8_setCurrentIndex_same_is_noop 1 two_tabs 0 1%positive H1 H2 H3).
Defined.

(** ** C9: moveTabTo *)

(** C9: [moveTabTo] of the QtQuick tab bar returns with the view, and so the
    model in it, unchanged, and without any event, whatever its arguments. *)
Theorem C9_moveTabTo_does_nothing (from to : Z) (tb : TabBar) :
  TabBar.moveTabTo from to tb = Ok tt tb [].
Proof. reflexivity. Qed.

(** ** C10: dockWidgetAt *)

(** C10: [dockWidgetAt] is a total function: for an index in range it is the
    widget at that position, which exists; for any other index, negative
    ones included, it is the null pointer. *)
Theorem C10_dockWidgetAt_total m index :
  if decide (0 ≤ index < count m)
  then ∃ h, m_dockWidgets m !! Z.to_nat index = Some h
            ∧ dockWidgetAt m index = Some h
  else dockWidgetAt m index = None.
Proof.
  destruct (decide (0 ≤ index < count m)) as [Hi|Hi].
  - destruct (m_dockWidgets m !! Z.to_nat index) as [h|] eqn:Hh.
    + exists h. by rewrite dockWidgetAt_in_range.
    + apply lookup_ge_None in Hh. unfold count in Hi. lia.
  - by apply dockWidgetAt_out_of_range.
Qed.

(** * Further properties of the model and of the view *)

(** ** More on the vector operations *)

Section QVectorSplit.
Implicit Types (l : list DockWidget) (x y : DockWidget).

Lemma QVector_indexOf_from_app_fresh l1 l2 x from :
  x ∉ l1 →
  QVector_indexOf_from (l1 ++ x :: l2) x from = from + Z.of_nat (length l1).
Proof.
  revert from. induction l1 as [|y l1 IH]; intros from Hx; simpl.
  - rewrite decide_True by done. lia.
  - apply not_elem_of_cons in Hx as [Hne Hx].
    rewrite decide_False by congruence. rewrite IH by done. lia.
Qed.

Lemma QVector_indexOf_app_fresh l1 l2 x :
  x ∉ l1 → QVector_indexOf (l1 ++ x :: l2) x = Z.of_nat (length l1).
Proof.
  intros Hx. unfold QVector_indexOf.
  rewrite QVector_indexOf_from_app_fresh by done. lia.
Qed.

Lemma QVector_removeOne_app_fresh l1 l2 x :
  x ∉ l1 → QVector_removeOne (l1 ++ x :: l2) x = l1 ++ l2.
Proof.
  induction l1 as [|y l1 IH]; intros Hx; simpl.
  - by rewrite decide_True.
  - apply not_elem_of_cons in Hx as [Hne Hx].
    rewrite decide_False by congruence. by rewrite IH.
Qed.

(** Inserting a fresh widget and removing it again gives the vector back. *)
Lemma QVector_removeOne_insert (i : Z) l x :
  x ∉ l → QVector_removeOne (QVector_insert i x l) x = l.
Proof.
  intros Hx. unfold QVector_insert.
  rewrite QVector_removeOne_app_fresh, take_drop; [done|].
  intros Hin. apply Hx. rewrite <- (take_drop (Z.to_nat i) l).
  apply elem_of_app. by left.
Qed.

Lemma QVector_indexOf_insert (i : Z) l x :
  x ∉ l → 0 ≤ i ≤ Z.of_nat (length l) →
  QVector_indexOf (QVector_insert i x l) x = i.
Proof.
  intros Hx Hi. unfold QVector_insert.
  rewrite QVector_indexOf_app_fresh.
  - rewrite length_take. lia.
  - intros Hin. apply Hx. rewrite <- (take_drop (Z.to_nat i) l).
    apply elem_of_app. by left.
Qed.

(** Where the widgets of the vector are after an insertion. *)
Lemma QVector_insert_lookup_other (i : Z) l x (n : nat) y :
  0 ≤ i ≤ Z.of_nat (length l) → l !! n = Some y →
  QVector_insert i x l !! (if decide (Z.of_nat n < i) then n else S n) = Some y.
Proof.
  intros Hi Hn. unfold QVector_insert.
  pose proof (lookup_lt_Some _ _ _ Hn) as Hlt.
  destruct (decide (Z.of_nat n < i)) as [Hlo|Hhi].
  - rewrite lookup_app_l by (rewrite length_take; lia).
    rewrite lookup_take_lt by lia. done.
  - rewrite lookup_app_r by (rewrite length_take; lia).
    rewrite length_take.
    replace (S n - Z.to_nat i `min` length l)%nat with (S (n - Z.to_nat i)) by lia.
    simpl. rewrite lookup_drop. rewrite <- Hn. f_equal. lia.
Qed.

(** Where the other widgets are after a removal. *)
Lemma QVector_removeOne_lookup_other l x (n : nat) y :
  NoDup l → x ∈ l → l !! n = Some y → y ≠ x →
  QVector_removeOne l x
    !! (if decide (Z.of_nat n < QVector_indexOf l x) then n else pred n) = Some y.
Proof.
  intros Hnd Hx Hn Hne.
  destruct (list_elem_of_split_l l x Hx) as (l1 & l2 & -> & Hfresh).
  rewrite QVector_removeOne_app_fresh, QVector_indexOf_app_fresh by done.
  assert (n ≠ length l1) as Hnr.
  { intros ->. rewrite list_lookup_middle in Hn by done. congruence. }
  destruct (decide (Z.of_nat n < Z.of_nat (length l1))) as [Hlo|Hhi].
  - rewrite lookup_app_l in Hn by lia. by rewrite lookup_app_l by lia.
  - rewrite lookup_app_r in Hn by lia. rewrite lookup_app_r by lia.
    replace (n - length l1)%nat with (S (pred n - length l1)) in Hn by lia.
    done.
Qed.

End QVectorSplit.

(** ** Selecting a widget *)

(** Refutes a membership [e ∈ evs] of an event in an explicit list that does
    not hold it. *)
Ltac absent_event H :=
  simpl in H;
  repeat (apply elem_of_cons in H as [H|H]; [discriminate H|]);
  by apply elem_of_nil in H.

(** X1: [setCurrentDockWidget] on the null pointer or on a widget of the model
    returns with two levels of fuel: the pointer is the new current one, the
    previous current widget (the same widget, if it was current already) is
    told [setVisible(false)] first, the new one is then shown under the
    [isSettingCurrent] guard, and the controller is not called. *)
Theorem setCurrentDockWidget_makes_current fuel p m :
  (2 ≤ fuel)%nat →
  (∀ d, p = Some d → d ∈ m_dockWidgets m) →
  ∃ m' evs,
    setCurrentDockWidget fuel p m = Ok tt m' evs
    ∧ m' = set_currentDockWidget p m
    ∧ evs = hide_events (m_currentDockWidget m) ++ show_events p
    ∧ (∀ i, controller_setCurrentIndex i ∉ evs).
Proof.
  intros Hfuel Hp. destruct fuel as [|[|fuel]]; [lia..|].
  eexists _, _. split; [by apply setCurrentDockWidget_member|].
  split_and!; [done..|].
  intros i [Hin|Hin]%elem_of_app.
  - destruct (m_currentDockWidget m); absent_event Hin.
  - destruct p; absent_event Hin.
Qed.

Lemma setCurrentDockWidget_makes_current_witness :
  (2 ≤ 2)%nat
  ∧ (∀ d, Some 1%positive = Some d → d ∈ m_dockWidgets two_tabs)
  ∧ ∃ m' evs,
      setCurrentDockWidget 2 (Some 1%positive) two_tabs = Ok tt m' evs
      ∧ m' = set_currentDockWidget (Some 1%positive) two_tabs
      ∧ evs = hide_events (m_currentDockWidget two_tabs)
              ++ show_events (Some 1%positive)
      ∧ (∀ i, controller_setCurrentIndex i ∉ evs).
Proof.
  assert (2 ≤ 2)%nat as H1 by lia.
  assert (∀ d, Some 1%positive = Some d → d ∈ m_dockWidgets two_tabs) as H2.
  { intros d [= <-]. compute_done. }
  split; [exact H1|]. split; [exact H2|].
  exact (setCurrentDockWidget_makes_current 2 (Some 1%positive) two_tabs H1 H2).
Defined.

(** X2: [setCurrentDockWidget] on a widget that is not in the model returns with
    four levels of fuel and leaves no widget current: the nested
    [setCurrentIndex(indexOf(dw))] is [setCurrentIndex(-1)], which hides the
    widget again and tells the controller -1; the widget is never shown. *)
Theorem setCurrentDockWidget_absent_resets fuel dw m :
  (4 ≤ fuel)%nat →
  dw ∉ m_dockWidgets m →
  ∃ m' evs,
    setCurrentDockWidget fuel (Some dw) m = Ok tt m' evs
    ∧ m' = set_currentDockWidget None m
    ∧ evs = hide_events (m_currentDockWidget m)
            ++ [setVisible dw false; controller_setCurrentIndex (-1)]
    ∧ (∀ d, setVisible d true ∉ evs).
Proof.
  intros Hfuel Hd. destruct fuel as [|[|[|[|fuel]]]]; [lia..|].
  eexists _, _. split; [by apply setCurrentDockWidget_absent|].
  split_and!; [done..|].
  intros d [Hin|Hin]%elem_of_app.
  - destruct (m_currentDockWidget m); absent_event Hin.
  - absent_event Hin.
Qed.

Lemma setCurrentDockWidget_absent_resets_witness :
  (4 ≤ 4)%nat
  ∧ (3%positive ∉ m_dockWidgets two_tabs)
  ∧ ∃ m' evs,
      setCurrentDockWidget 4 (Some 3%positive) two_tabs = Ok tt m' evs
      ∧ m' = set_currentDockWidget None two_tabs
      ∧ evs = hide_events (m_currentDockWidget two_tabs)
              ++ [setVisible 3%positive false; controller_setCurrentIndex (-1)]
      ∧ (∀ d, setVisible d true ∉ evs).
Proof.
  assert (4 ≤ 4)%nat as H1 by lia.
  assert (3%positive ∉ m_dockWidgets two_tabs) as H2 by compute_done.
  split; [exact H1|]. split; [exact H2|].
  exact (setCurrentDockWidget_absent_resets 4 3%positive two_tabs H1 H2).
Defined.

(** X3: [setCurrentIndex] is idempotent: on any model and for any index, in
    range or not, a second call with the same index finds the resolved
    widget current and does nothing. *)
Theorem setCurrentIndex_twice fuel index m :
  (3 ≤ fuel)%nat →
  ∃ m1 evs,
    setCurrentIndex fuel index m = Ok tt m1 evs
    ∧ setCurrentIndex fuel index m1 = Ok tt m1 [].
Proof.
  intros Hfuel. destruct fuel as [|[|[|fuel]]]; [lia..|].
  destruct (setCurrentIndex_total fuel index m) as [evs Hs].
  eexists _, evs. split; [exact Hs|].
  by apply setCurrentIndex_same.
Qed.

Lemma setCurrentIndex_twice_witness :
  (3 ≤ 3)%nat
  ∧ ∃ m1 evs,
      setCurrentIndex 3 1 two_tabs = Ok tt m1 evs
      ∧ setCurrentIndex 3 1 m1 = Ok tt m1 [].
Proof.
  assert (3 ≤ 3)%nat as H1 by lia.
  split; [exact H1 | exact (setCurrentIndex_twice 3 1 two_tabs H1)].
Defined.

(** X4: When the index resolves to another pointer than the current one,
    [setCurrentIndex] changes the current pointer and nothing else in the
    model; the previous current widget is hidden before the new one is shown,
    and the controller is told last, with the index as it was given, also
    when it is out of range. *)
Theorem setCurrentIndex_change_events fuel index m :
  (3 ≤ fuel)%nat →
  m_currentDockWidget m ≠ dockWidgetAt m index →
  setCurrentIndex fuel index m
  = Ok tt (set_currentDockWidget (dockWidgetAt m index) m)
          (hide_events (m_currentDockWidget m)
             ++ show_events (dockWidgetAt m index)
             ++ [controller_setCurrentIndex index]).
Proof.
  intros Hfuel Hne. destruct fuel as [|[|[|fuel]]]; [lia..|].
  by apply setCurrentIndex_change.
Qed.

Lemma setCurrentIndex_change_events_witness :
  (3 ≤ 3)%nat
  ∧ m_currentDockWidget two_tabs ≠ dockWidgetAt two_tabs 1
  ∧ setCurrentIndex 3 1 two_tabs
    = Ok tt (set_currentDockWidget (dockWidgetAt two_tabs 1) two_tabs)
            (hide_events (m_currentDockWidget two_tabs)
               ++ show_events (dockWidgetAt two_tabs 1)
               ++ [controller_setCurrentIndex 1]).
Proof.
  assert (3 ≤ 3)%nat as H1 by lia.
  assert (m_currentDockWidget two_tabs ≠ dockWidgetAt two_tabs 1) as H2
    by compute_done.
  split; [exact H1|]. split; [exact H2|].
  exact (setCurrentIndex_change_events 3 1 two_tabs H1 H2).
Defined.

(** ** Inserting and removing *)

(** Two connections made and then dropped leave the connection table as it
    was. *)
Lemma connect_then_disconnect (q : gmultiset Connection) (a b : Connection) :
  (q ⊎ {[+ a +]} ⊎ {[+ b +]}) ∖ {[+ a +]} ∖ {[+ b +]} = q.
Proof.
  apply gmultiset_eq. intros c.
  rewrite !multiplicity_difference, !multiplicity_disj_union. lia.
Qed.

(** X5: Round trip: in a well-formed model, inserting a widget that is not there
    at a valid index and removing it again gives back the model it started
    from, subscriptions included; the widget is reported removed from the row
    it was inserted at. *)
Theorem insert_then_remove_restores dw index m :
  well_formed m →
  dw ∉ m_dockWidgets m →
  0 ≤ index ≤ count m →
  (insert dw index ;; remove dw)%model m
  = Ok tt m (insertion_events index ++ removal_events index).
Proof.
  intros (Hnd & Hc & Hq) Hd Hi.
  assert (dw ∈ m_dockWidgets (inserted dw index m)) as Hin
    by (apply QVector_insert_elem_of; by left).
  unfold bind. rewrite insert_absent, remove_present by done.
  assert (m_connections m !! dw = None) as Hnone
    by (by rewrite Hc, expected_connections_lookup, decide_False).
  assert (removed dw (inserted dw index m) = m) as ->.
  { unfold removed, inserted. cbn [m_dockWidgets m_connections m_removeGuard
                                    m_currentDockWidget qt_connections].
    rewrite QVector_removeOne_insert, lookup_insert_eq, delete_insert_id by done.
    simpl. rewrite connect_then_disconnect. by destruct m. }
  cbn [inserted m_dockWidgets].
  by rewrite QVector_indexOf_insert.
Qed.

Lemma insert_then_remove_restores_witness :
  well_formed two_tabs
  ∧ (3%positive ∉ m_dockWidgets two_tabs)
  ∧ 0 ≤ 1 ≤ count two_tabs
  ∧ (insert 3%positive 1 ;; remove 3%positive)%model two_tabs
    = Ok tt two_tabs (insertion_events 1 ++ removal_events 1).
Proof.
  assert (well_formed two_tabs) as H1 by compute_done.
  assert (3%positive ∉ m_dockWidgets two_tabs) as H2 by compute_done.
  assert (0 ≤ 1 ≤ count two_tabs) as H3 by (vm_compute; split; discriminate).
  split; [exact H1|]. split; [exact H2|]. split; [exact H3|].
  exact (insert_then_remove_restores 3%positive 1 two_tabs H1 H2 H3).
Defined.

(** X6: After a successful [insert(dw, index)] the widget is found where it was
    put: [indexOf] is [index], [dockWidgetAt(index)] is the widget,
    [contains] holds and [count] has grown by one. *)
Theorem insert_then_lookup dw index m :
  dw ∉ m_dockWidgets m →
  0 ≤ index ≤ count m →
  ∃ m' evs,
    insert dw index m = Ok true m' evs
    ∧ indexOf m' (Some dw) = index
    ∧ dockWidgetAt m' index = Some dw
    ∧ contains m' dw = true
    ∧ count m' = count m + 1.
Proof.
  intros Hd Hi. eexists _, _. split; [by apply insert_absent|].
  assert (count (inserted dw index m) = count m + 1) as Hcount.
  { unfold count. simpl. rewrite QVector_insert_length. lia. }
  split_and!.
  - simpl. by apply QVector_indexOf_insert.
  - rewrite dockWidgetAt_in_range by lia. simpl. by apply QVector_insert_lookup.
  - apply QVector_contains_true, QVector_insert_elem_of. by left.
  - done.
Qed.

Lemma insert_then_lookup_witness :
  (3%positive ∉ m_dockWidgets two_tabs)
  ∧ 0 ≤ 1 ≤ count two_tabs
  ∧ ∃ m' evs,
      insert 3%positive 1 two_tabs = Ok true m' evs
      ∧ indexOf m' (Some 3%positive) = 1
      ∧ dockWidgetAt m' 1 = Some 3%positive
      ∧ contains m' 3%positive = true
      ∧ count m' = count two_tabs + 1.
Proof.
  assert (3%positive ∉ m_dockWidgets two_tabs) as H1 by compute_done.
  assert (0 ≤ 1 ≤ count two_tabs) as H2 by (vm_compute; split; discriminate).
  split; [exact H1|]. split; [exact H2|].
  exact (insert_then_lookup 3%positive 1 two_tabs H1 H2).
Defined.

(** X7: An insertion keeps the widgets that were there in their order: a widget
    that was at position [n] keeps it when [n] is below the insertion index
    and moves up by one otherwise. *)
Theorem insert_shifts_later_widgets dw index m (n : nat) x :
  NoDup (m_dockWidgets m) →
  dw ∉ m_dockWidgets m →
  0 ≤ index ≤ count m →
  m_dockWidgets m !! n = Some x →
  ∃ m' evs,
    insert dw index m = Ok true m' evs
    ∧ indexOf m' (Some x)
      = if decide (Z.of_nat n < index) then Z.of_nat n else Z.of_nat n + 1.
Proof.
  intros Hnd Hd Hi Hn. eexists _, _. split; [by apply insert_absent|].
  simpl.
  pose proof (QVector_insert_lookup_other index _ dw n x Hi Hn) as Hl.
  apply QVector_indexOf_lookup in Hl; [|by apply QVector_insert_NoDup].
  rewrite Hl. destruct (decide (Z.of_nat n < index)); lia.
Qed.

Lemma insert_shifts_later_widgets_witness :
  NoDup (m_dockWidgets two_tabs)
  ∧ (3%positive ∉ m_dockWidgets two_tabs)
  ∧ 0 ≤ 1 ≤ count two_tabs
  ∧ m_dockWidgets two_tabs !! 1%nat = Some 2%positive
  ∧ ∃ m' evs,
      insert 3%positive 1 two_tabs = Ok true m' evs
      ∧ indexOf m' (Some 2%positive)
        = if decide (Z.of_nat 1 < 1) then Z.of_nat 1 else Z.of_nat 1 + 1.
Proof.
  assert (NoDup (m_dockWidgets two_tabs)) as H1 by compute_done.
  assert (3%positive ∉ m_dockWidgets two_tabs) as H2 by compute_done.
  assert (0 ≤ 1 ≤ count two_tabs) as H3 by (vm_compute; split; discriminate).
  assert (m_dockWidgets two_tabs !! 1%nat = Some 2%positive) as H4 by reflexivity.
  split; [exact H1|]. split; [exact H2|]. split; [exact H3|]. split; [exact H4|].
  exact (insert_shifts_later_widgets 3%positive 1 two_tabs 1 2%positive H1 H2 H3 H4).
Defined.

(** X8: A removal keeps the other widgets in their order: a widget that was at
    position [n] keeps it when [n] is below the row removed and moves down by
    one otherwise. *)
Theorem remove_shifts_later_widgets dw m (n : nat) x :
  NoDup (m_dockWidgets m) →
  dw ∈ m_dockWidgets m →
  m_dockWidgets m !! n = Some x →
  x ≠ dw →
  ∃ m' evs,
    remove dw m = Ok tt m' evs
    ∧ indexOf m' (Some x)
      = if decide (Z.of_nat n < indexOf m (Some dw))
        then Z.of_nat n else Z.of_nat n - 1.
Proof.
  intros Hnd Hd Hn Hne. eexists _, _. split; [by apply remove_present|].
  simpl.
  pose proof (QVector_removeOne_lookup_other _ dw n x Hnd Hd Hn Hne) as Hl.
  apply QVector_indexOf_lookup in Hl; [|by apply QVector_removeOne_NoDup].
  rewrite Hl.
  destruct (decide (Z.of_nat n < QVector_indexOf (m_dockWidgets m) dw)) as [|Hge];
    [done|].
  assert (QVector_indexOf (m_dockWidgets m) dw ≠ Z.of_nat n).
  { intros Heq. destruct (QVector_indexOf_present _ _ Hd) as (k & Hk & _ & Hidx).
    assert (k = n) as -> by lia. congruence. }
  pose proof (QVector_indexOf_range (m_dockWidgets m) dw).
  assert (QVector_indexOf (m_dockWidgets m) dw ≠ -1)
    by (intros E%QVector_indexOf_minus_one; done).
  lia.
Qed.

Lemma remove_shifts_later_widgets_witness :
  NoDup (m_dockWidgets two_tabs)
  ∧ 1%positive ∈ m_dockWidgets two_tabs
  ∧ m_dockWidgets two_tabs !! 1%nat = Some 2%positive
  ∧ 2%positive ≠ 1%positive
  ∧ ∃ m' evs,
      remove 1%positive two_tabs = Ok tt m' evs
      ∧ indexOf m' (Some 2%positive)
        = if decide (Z.of_nat 1 < indexOf two_tabs (Some 1%positive))
          then Z.of_nat 1 else Z.of_nat 1 - 1.
Proof.
  assert (NoDup (m_dockWidgets two_tabs)) as H1 by compute_done.
  assert (1%positive ∈ m_dockWidgets two_tabs) as H2 by compute_done.
  assert (m_dockWidgets two_tabs !! 1%nat = Some 2%positive) as H3 by reflexivity.
  assert (2%positive ≠ 1%positive) as H4 by discriminate.
  split; [exact H1|]. split; [exact H2|]. split; [exact H3|]. split; [exact H4|].
  exact (remove_shifts_later_widgets 1%positive two_tabs 1 2%positive H1 H2 H3 H4).
Defined.

(** X9: Removing another widget than the current one keeps the selection on the
    same widget: [currentIndex] still resolves to it, one row lower when the
    removed widget was in front of it, at the same row otherwise (also when
    the widget to remove is not in the model). *)
Theorem remove_other_keeps_current dw c m :
  NoDup (m_dockWidgets m) →
  m_currentDockWidget m = Some c →
  c ∈ m_dockWidgets m →
  dw ≠ c →
  ∃ m' evs i i',
    remove dw m = Ok tt m' evs
    ∧ currentIndex m = Ok i m []
    ∧ currentIndex m' = Ok i' m' []
    ∧ dockWidgetAt m' i' = Some c
    ∧ i' = if decide (dw ∈ m_dockWidgets m ∧ indexOf m (Some dw) < i)
           then i - 1 else i.
Proof.
  intros Hnd Hcur Hc Hne.
  destruct (QVector_indexOf_present _ _ Hc) as (n & Hn & _ & Hidx).
  destruct (decide (dw ∈ m_dockWidgets m)) as [Hd|Hd].
  - pose proof (QVector_removeOne_lookup_other _ dw n c Hnd Hd Hn (not_eq_sym Hne))
      as Hl.
    pose proof (QVector_removeOne_NoDup _ dw Hnd) as Hnd'.
    pose proof (QVector_indexOf_lookup _ _ _ Hnd' Hl) as Hidx'.
    assert (QVector_indexOf (m_dockWidgets m) dw ≠ Z.of_nat n) as Hrn.
    { intros Heq. destruct (QVector_indexOf_present _ _ Hd) as (k & Hk & _ & Hk').
      assert (k = n) as -> by lia. congruence. }
    pose proof (QVector_indexOf_range (m_dockWidgets m) dw) as Hrange.
    assert (QVector_indexOf (m_dockWidgets m) dw ≠ -1) as Hpresent
      by (intros E%QVector_indexOf_minus_one; done).
    eexists _, _, _, _. split; [by apply remove_present|].
    split; [by apply currentIndex_member|].
    split.
    { apply currentIndex_member; [done|]. simpl.
      apply QVector_removeOne_elem_of; done. }
    simpl. rewrite Hidx, Hidx'. split.
    + rewrite dockWidgetAt_in_range.
      * simpl. by rewrite Nat2Z.id.
      * apply lookup_lt_Some in Hl. unfold count. simpl. lia.
    + destruct (decide (Z.of_nat n < QVector_indexOf (m_dockWidgets m) dw));
        destruct (decide (_ ∧ _)) as [[_ ?]|Hno]; try lia.
      exfalso. apply Hno. split; [done | lia].
  - eexists _, _, _, _. split; [by apply remove_absent|].
    split; [by apply currentIndex_member|].
    split; [by apply currentIndex_member|].
    rewrite Hidx. split.
    + rewrite dockWidgetAt_in_range.
      * by rewrite Nat2Z.id.
      * apply lookup_lt_Some in Hn. unfold count. lia.
    + destruct (decide (_ ∧ _)) as [[? _]|]; done.
Qed.

Lemma remove_other_keeps_current_witness :
  NoDup (m_dockWidgets (set_currentDockWidget (Some 2%positive) two_tabs))
  ∧ m_currentDockWidget (set_currentDockWidget (Some 2%positive) two_tabs)
    = Some 2%positive
  ∧ 2%positive ∈ m_dockWidgets (set_currentDockWidget (Some 2%positive) two_tabs)
  ∧ 1%positive ≠ 2%positive
  ∧ ∃ m' evs i i',
      remove 1%positive (set_currentDockWidget (Some 2%positive) two_tabs)
      = Ok tt m' evs
      ∧ currentIndex (set_currentDockWidget (Some 2%positive) two_tabs)
        = Ok i (set_currentDockWidget (Some 2%positive) two_tabs) []
      ∧ currentIndex m' = Ok i' m' []
      ∧ dockWidgetAt m' i' = Some 2%positive
      ∧ i' = if decide (1%positive
                          ∈ m_dockWidgets
                              (set_currentDockWidget (Some 2%positive) two_tabs)
                        ∧ indexOf (set_currentDockWidget (Some 2%positive) two_tabs)
                            (Some 1%positive) < i)
             then i - 1 else i.
Proof.
  assert (NoDup (m_dockWidgets (set_currentDockWidget (Some 2%positive) two_tabs)))
    as H1 by compute_done.
  assert (m_currentDockWidget (set_currentDockWidget (Some 2%positive) two_tabs)
          = Some 2%positive) as H2 by reflexivity.
  assert (2%positive
            ∈ m_dockWidgets (set_currentDockWidget (Some 2%positive) two_tabs))
    as H3 by compute_done.
  assert (1%positive ≠ 2%positive) as H4 by discriminate.
  split; [exact H1|]. split; [exact H2|]. split; [exact H3|]. split; [exact H4|].
  exact (remove_other_keeps_current 1%positive 2%positive _ H1 H2 H3 H4).
Defined.

(** X10: [countChanged] is emitted exactly when the count changes: once by an
    [insert] that returns [true], which is when the widget was not there,
    and the count is then one higher; once, together with
    [dockWidgetRemoved], by a [remove] of a widget that is there, and the
    count is then one lower; never otherwise. An [insert] stops on Qt's
    assertion only for a new widget and an index out of range. *)
Theorem countChanged_tracks_count dw index m :
  match insert dw index m with
  | Ok b m' evs =>
      count m' = count m + Z.of_nat (occurrences countChanged evs)
      ∧ occurrences countChanged evs = (if b then 1 else 0)%nat
      ∧ (b = true ↔ dw ∉ m_dockWidgets m)
  | QtAssert => (dw ∉ m_dockWidgets m) ∧ ¬ (0 ≤ index ≤ count m)
  | OutOfFuel => False
  end
  ∧ ∃ m' evs,
      remove dw m = Ok tt m' evs
      ∧ count m' = count m - Z.of_nat (occurrences countChanged evs)
      ∧ occurrences dockWidgetRemoved evs = occurrences countChanged evs
      ∧ occurrences countChanged evs
        = (if decide (dw ∈ m_dockWidgets m) then 1 else 0)%nat.
Proof.
  destruct (decide (dw ∈ m_dockWidgets m)) as [Hd|Hd]; split.
  - rewrite insert_present by done.
    change (occurrences countChanged [qWarning ShouldntHappen]) with 0%nat.
    split_and!; [lia | done |]. split; [done | tauto].
  - eexists _, _. split; [by apply remove_present|].
    split_and!; [|done..].
    unfold count. simpl. rewrite QVector_removeOne_length by done.
    apply list_elem_of_lookup in Hd as [k Hk]. apply lookup_lt_Some in Hk.
    change (occurrences countChanged (removal_events _)) with 1%nat. lia.
  - destruct (decide (0 ≤ index ≤ count m)) as [Hi|Hi].
    + rewrite insert_absent by done. split_and!; [|done|tauto].
      unfold count. simpl. rewrite QVector_insert_length.
      change (occurrences countChanged (insertion_events index)) with 1%nat. lia.
    + by rewrite insert_out_of_range.
  - eexists _, _. split; [by apply remove_absent|].
    change (occurrences countChanged []) with 0%nat.
    split_and!; [lia | done..].
Qed.

(** X11: [insert] and [remove] never touch the selection: the current pointer
    and the guard flag are what they were, no widget is shown or hidden and
    the controller is not told a current index, also when the widget removed
    is the current one. *)
Theorem insert_remove_leave_selection dw index m :
  match insert dw index m with
  | Ok _ m' evs =>
      m_currentDockWidget m' = m_currentDockWidget m
      ∧ m_removeGuard m' = m_removeGuard m
      ∧ (∀ d b, setVisible d b ∉ evs)
      ∧ (∀ i, controller_setCurrentIndex i ∉ evs)
  | QtAssert => ¬ (0 ≤ index ≤ count m)
  | OutOfFuel => False
  end
  ∧ ∃ m' evs,
      remove dw m = Ok tt m' evs
      ∧ m_currentDockWidget m' = m_currentDockWidget m
      ∧ m_removeGuard m' = m_removeGuard m
      ∧ (∀ d b, setVisible d b ∉ evs)
      ∧ (∀ i, controller_setCurrentIndex i ∉ evs).
Proof.
  split.
  - destruct (decide (dw ∈ m_dockWidgets m)) as [Hd|Hd].
    + rewrite insert_present by done.
      split_and!; [done..| |]; intros; intros Hin; absent_event Hin.
    + destruct (decide (0 ≤ index ≤ count m)) as [Hi|Hi].
      * rewrite insert_absent by done.
        split_and!; [done..| |]; intros; intros Hin; absent_event Hin.
      * by rewrite insert_out_of_range.
  - destruct (decide (dw ∈ m_dockWidgets m)) as [Hd|Hd].
    + eexists _, _. split; [by apply remove_present|].
      split_and!; [done..| |]; intros; intros Hin; absent_event Hin.
    + eexists _, _. split; [by apply remove_absent|].
      split_and!; [done..| |]; intros; intros Hin; absent_event Hin.
Qed.

(** ** Signals of the widgets, and the states the model can be in *)

(** What the [titleChanged] signal does in a well-formed model. *)
Lemma on_titleChanged_well_formed dw m :
  well_formed m →
  on_titleChanged dw m
  = Ok tt m (if decide (dw ∈ m_dockWidgets m)
             then [dataChanged (indexOf m (Some dw))] else []).
Proof.
  intros Hwf. unfold on_titleChanged, emit_signal, bind, gets.
  rewrite well_formed_multiplicity by done.
  destruct (decide (dw ∈ m_dockWidgets m)) as [Hd|Hd]; [|done].
  assert (Conn dw titleChanged ∈ qt_connections m) as Hlive.
  { apply elem_of_multiplicity.
    rewrite well_formed_multiplicity, decide_True by done. lia. }
  unfold deliver, bind, gets, when, slot_of, ret.
  cbn [conn_signal conn_sender].
  rewrite (bool_decide_eq_true_2 _ Hlive).
  unfold emitDataChangedFor, bind, gets, emit. simpl.
  destruct (QVector_indexOf (m_dockWidgets m) dw =? -1) eqn:E; [|done].
  apply Z.eqb_eq, QVector_indexOf_minus_one in E. done.
Qed.

(** X12: In a well-formed model a title change of a widget of the model emits
    [dataChanged] once, for the row of the widget, and changes nothing; a
    title change of any other widget reaches no slot. The warning of
    [emitDataChangedFor] is therefore never printed through the signal. *)
Theorem titleChanged_reports_row dw m :
  well_formed m →
  on_titleChanged dw m
  = Ok tt m (if decide (dw ∈ m_dockWidgets m)
             then [dataChanged (indexOf m (Some dw))] else []).
Proof. apply on_titleChanged_well_formed. Qed.

Lemma titleChanged_reports_row_witness :
  well_formed two_tabs
  ∧ on_titleChanged 2%positive two_tabs
    = Ok tt two_tabs (if decide (2%positive ∈ m_dockWidgets two_tabs)
                      then [dataChanged (indexOf two_tabs (Some 2%positive))]
                      else []).
Proof.
  assert (well_formed two_tabs) as H1 by compute_done.
  split; [exact H1 | exact (titleChanged_reports_row 2%positive two_tabs H1)].
Defined.

(** X13: After [remove(dw)] of a widget of a well-formed model the widget is
    unsubscribed: [m_connections] has no entry for it, and neither a later
    title change nor its destruction reaches the model. *)
Theorem removed_widget_is_unsubscribed dw m :
  well_formed m →
  dw ∈ m_dockWidgets m →
  ∃ m' evs,
    remove dw m = Ok tt m' evs
    ∧ m_connections m' !! dw = None
    ∧ on_titleChanged dw m' = Ok tt m' []
    ∧ on_destroyed dw m' = Ok tt m' [].
Proof.
  intros Hwf Hd. pose proof Hwf as (Hnd & Hc & _).
  assert (dw ∉ m_dockWidgets (removed dw m)) as Hgone.
  { simpl. intros [_ ?]%QVector_removeOne_elem_of; done. }
  assert (well_formed (removed dw m)) as Hwf' by (by apply well_formed_removed).
  eexists _, _. split; [by apply remove_present|]. split_and!.
  - simpl. apply lookup_delete_eq.
  - rewrite on_titleChanged_well_formed by done. by rewrite decide_False.
  - by apply on_destroyed_absent.
Qed.

Lemma removed_widget_is_unsubscribed_witness :
  well_formed two_tabs
  ∧ 1%positive ∈ m_dockWidgets two_tabs
  ∧ ∃ m' evs,
      remove 1%positive two_tabs = Ok tt m' evs
      ∧ m_connections m' !! 1%positive = None
      ∧ on_titleChanged 1%positive m' = Ok tt m' []
      ∧ on_destroyed 1%positive m' = Ok tt m' [].
Proof.
  assert (well_formed two_tabs) as H1 by compute_done.
  assert (1%positive ∈ m_dockWidgets two_tabs) as H2 by compute_done.
  split; [exact H1|]. split; [exact H2|].
  exact (removed_widget_is_unsubscribed 1%positive two_tabs H1 H2).
Defined.

(** X14: Every operation puts the guard flag back: between calls of the public
    operations [m_removeGuard] is false. *)
Theorem reachable_guard_released m : reachable m → m_removeGuard m = false.
Proof.
  induction 1 as [|m dw index b m' evs Hr IH Hop|m dw m' evs Hr IH Hop
                  |m fuel index m' evs Hr IH Hop|m dw m' evs Hr IH Hop].
  - done.
  - destruct (decide (dw ∈ m_dockWidgets m)) as [Hd|Hd].
    + rewrite insert_present in Hop by done. by simplify_eq.
    + destruct (decide (0 ≤ index ≤ count m)) as [Hi|Hi].
      * rewrite insert_absent in Hop by done. by simplify_eq.
      * by rewrite insert_out_of_range in Hop.
  - destruct (decide (dw ∈ m_dockWidgets m)) as [Hd|Hd].
    + rewrite remove_present in Hop by done. by simplify_eq.
    + rewrite remove_absent in Hop by done. by simplify_eq.
  - apply setCurrentIndex_Ok in Hop as ->. done.
  - pose proof (reachable_well_formed m Hr) as Hwf.
    destruct (decide (dw ∈ m_dockWidgets m)) as [Hd|Hd].
    + rewrite on_destroyed_member in Hop by done. by simplify_eq.
    + rewrite on_destroyed_absent in Hop by done. by simplify_eq.
Qed.

Lemma reachable_guard_released_witness :
  reachable single_current ∧ m_removeGuard single_current = false.
Proof.
  assert (reachable single_current) as H1.
  { apply (reachable_setCurrentIndex (set_currentDockWidget None single_current)
             3%nat 0 _ (show_events (Some 1%positive) ++ [controller_setCurrentIndex 0]));
      [|by vm_compute].
    apply (reachable_insert new_model 1%positive 0 true _ (insertion_events 0));
      [constructor | by vm_compute]. }
  split; [exact H1 | exact (reachable_guard_released single_current H1)].
Defined.

(** X15: In every state the model can reach, the sequence has no duplicates and
    the subscriptions are exactly those of its widgets: [m_connections] has
    an entry for a widget if and only if it is in the sequence, the entry
    holds its two connections, and each of them is live exactly once. *)
Theorem reachable_subscriptions m :
  reachable m →
  NoDup (m_dockWidgets m)
  ∧ (∀ dw, is_Some (m_connections m !! dw) ↔ dw ∈ m_dockWidgets m)
  ∧ (∀ dw, dw ∈ m_dockWidgets m →
           m_connections m !! dw = Some [Conn dw titleChanged; Conn dw destroyed])
  ∧ (∀ dw sg, multiplicity (Conn dw sg) (qt_connections m)
              = if decide (dw ∈ m_dockWidgets m) then 1%nat else 0%nat).
Proof.
  intros Hr. pose proof (reachable_well_formed m Hr) as Hwf.
  pose proof Hwf as (Hnd & Hc & _). split_and!.
  - done.
  - intros dw. rewrite Hc, expected_connections_lookup.
    destruct (decide (dw ∈ m_dockWidgets m)); split; try done;
      by intros [? ?].
  - intros dw Hd. by rewrite Hc, expected_connections_lookup, decide_True.
  - intros dw sg. by apply well_formed_multiplicity.
Qed.

Lemma reachable_subscriptions_witness :
  reachable single_current
  ∧ NoDup (m_dockWidgets single_current)
  ∧ (∀ dw, is_Some (m_connections single_current !! dw)
           ↔ dw ∈ m_dockWidgets single_current)
  ∧ (∀ dw, dw ∈ m_dockWidgets single_current →
           m_connections single_current !! dw
           = Some [Conn dw titleChanged; Conn dw destroyed])
  ∧ (∀ dw sg, multiplicity (Conn dw sg) (qt_connections single_current)
              = if decide (dw ∈ m_dockWidgets single_current)
                then 1%nat else 0%nat).
Proof.
  assert (reachable single_current) as H1.
  { apply (reachable_setCurrentIndex (set_currentDockWidget None single_current)
             3%nat 0 _ (show_events (Some 1%positive) ++ [controller_setCurrentIndex 0]));
      [|by vm_compute].
    apply (reachable_insert new_model 1%positive 0 true _ (insertion_events 0));
      [constructor | by vm_compute]. }
  split; [exact H1 | exact (reachable_subscriptions single_current H1)].
Defined.

(** X16: [currentIndex] always returns, without changing the model, a value from
    -1 to [count - 1]: the row of the current widget when it is in the
    sequence, and -1 otherwise. It warns exactly when a widget is current
    that is not in the sequence. *)
Theorem currentIndex_total m :
  ∃ i evs,
    currentIndex m = Ok i m evs
    ∧ -1 ≤ i < count m
    ∧ (i ≠ -1 ↔ ∃ c, m_currentDockWidget m = Some c ∧ c ∈ m_dockWidgets m)
    ∧ (∀ c, m_currentDockWidget m = Some c → c ∈ m_dockWidgets m →
            dockWidgetAt m i = Some c)
    ∧ (evs = [] ↔ current_in_sequence m)
    ∧ (∀ e, e ∈ evs → is_warning e = true).
Proof.
  unfold current_in_sequence.
  destruct (m_currentDockWidget m) as [c|] eqn:Hcur.
  - destruct (decide (c ∈ m_dockWidgets m)) as [Hc|Hc].
    + pose proof (QVector_indexOf_range (m_dockWidgets m) c) as Hrange.
      assert (QVector_indexOf (m_dockWidgets m) c ≠ -1) as Hpresent
        by (intros E%QVector_indexOf_minus_one; done).
      eexists _, _. split; [by apply currentIndex_member|].
      split; [unfold count; lia|]. split_and!.
      * split; [by exists c | done].
      * intros c' [= <-] _. by apply (dockWidgetAt_indexOf m (Some c)); intros ? [= <-].
      * done.
      * intros e He. by apply elem_of_nil in He.
    + eexists _, _. split; [by apply currentIndex_dangling|].
      split; [pose proof (count_nonneg m); lia|]. split_and!.
      * split; [done|]. intros (c' & [= <-] & ?). done.
      * intros c' [= <-] ?. done.
      * split; [done | by intros ?].
      * intros e ->%list_elem_of_singleton. done.
  - eexists _, _. split; [by apply currentIndex_null|].
    split; [pose proof (count_nonneg m); lia|]. split_and!.
    + split; [done|]. by intros (c' & ? & _).
    + by intros c' ?.
    + done.
    + intros e He. by apply elem_of_nil in He.
Qed.

(** ** The view *)

(** X17: Through the view the controller hears of every change of count, once:
    [insertDockWidget] and [removeDockWidget] emit the controller's
    [countChanged] as often as the model's, which is the amount by which the
    count has changed; the hovered tab index is left alone. *)
Theorem view_forwards_countChanged index dw tb :
  match TabBar.insertDockWidget index dw tb with
  | Ok _ tb' evs =>
      m_hoveredTabIndex tb' = m_hoveredTabIndex tb
      ∧ occurrences controller_countChanged evs = occurrences countChanged evs
      ∧ count (m_dockWidgetModel tb')
        = count (m_dockWidgetModel tb)
          + Z.of_nat (occurrences controller_countChanged evs)
  | QtAssert => ¬ (0 ≤ index ≤ count (m_dockWidgetModel tb))
  | OutOfFuel => False
  end
  ∧ ∃ tb' evs,
      TabBar.removeDockWidget dw tb = Ok tt tb' evs
      ∧ m_hoveredTabIndex tb' = m_hoveredTabIndex tb
      ∧ occurrences controller_countChanged evs = occurrences countChanged evs
      ∧ count (m_dockWidgetModel tb')
        = count (m_dockWidgetModel tb)
          - Z.of_nat (occurrences controller_countChanged evs).
Proof.
  destruct tb as [m hovered].
  unfold TabBar.insertDockWidget, TabBar.removeDockWidget, on_model, bind, ret.
  cbn [m_hoveredTabIndex m_dockWidgetModel].
  destruct (decide (dw ∈ m_dockWidgets m)) as [Hd|Hd]; split.
  - rewrite insert_present by done. cbn [m_hoveredTabIndex m_dockWidgetModel].
    change (forward_countChanged [qWarning ShouldntHappen] ++ [])
      with [qWarning ShouldntHappen].
    change (occurrences controller_countChanged [qWarning ShouldntHappen])
      with 0%nat.
    split_and!; [done | done | lia].
  - rewrite remove_present by done. eexists _, _. split; [done|].
    cbn [m_hoveredTabIndex m_dockWidgetModel].
    change (occurrences controller_countChanged
              (forward_countChanged (removal_events _))) with 1%nat.
    split_and!; [done | done |].
    unfold count. simpl. rewrite QVector_removeOne_length by done.
    apply list_elem_of_lookup in Hd as [k Hk]. apply lookup_lt_Some in Hk. lia.
  - destruct (decide (0 ≤ index ≤ count m)) as [Hi|Hi].
    + rewrite insert_absent by done. cbn [m_hoveredTabIndex m_dockWidgetModel].
      change (occurrences controller_countChanged
                (forward_countChanged (insertion_events index) ++ []))
        with 1%nat.
      split_and!; [done | done |].
      unfold count. simpl. rewrite QVector_insert_length. lia.
    + by rewrite insert_out_of_range.
  - rewrite remove_absent by done. eexists _, _. split; [done|].
    cbn [m_hoveredTabIndex m_dockWidgetModel].
    change (occurrences controller_countChanged (forward_countChanged []))
      with 0%nat.
    split_and!; [done | done | lia].
Qed.

(** X18: [data] answers for the rows of the root and the title role only: it is
    the title of the widget [dockWidgetAt] finds at the row, and an invalid
    value for any other role and for any row for which [dockWidgetAt] is
    null; with the title role it is valid exactly for the rows below
    [rowCount] of the root. A valid parent has no rows. *)
Theorem data_is_title_of_row {T} (title : DockWidget → T) (Role_Title : Z)
    (row role : Z) (m : DockWidgetModel) :
  data title Role_Title row role m
  = (if decide (role = Role_Title) then title <$> dockWidgetAt m row else None)
  ∧ (is_Some (data title Role_Title row Role_Title m)
     ↔ 0 ≤ row < rowCount false m)
  ∧ rowCount true m = 0.
Proof.
  assert (data title Role_Title row role m
          = if decide (role = Role_Title) then title <$> dockWidgetAt m row
            else None) as Hdata.
  { unfold data, dockWidgetAt.
    destruct ((row <? 0) || (row >=? count m)); [by destruct (decide _)|].
    destruct (m_dockWidgets m !! Z.to_nat row) as [dw|];
      [|by destruct (decide _)].
    destruct (decide (role = Role_Title)) as [->|Hne].
    - by rewrite Z.eqb_refl.
    - by apply Z.eqb_neq in Hne as ->. }
  split; [exact Hdata|]. split; [|done].
  unfold data, rowCount.
  destruct (decide (0 ≤ row < count m)) as [Hi|Hi].
  - destruct (row <? 0) eqn:E1; [lia|].
    destruct (row >=? count m) eqn:E2; [lia|]. simpl.
    destruct (m_dockWidgets m !! Z.to_nat row) as [dw|] eqn:Hdw.
    + rewrite Z.eqb_refl. split; [done | by eexists].
    + apply lookup_ge_None in Hdw. unfold count in Hi. lia.
  - split; [|done]. intros [t Ht].
    destruct (row <? 0) eqn:E1; [done|].
    destruct (row >=? count m) eqn:E2; [done | lia].
Qed.

(** The loop of [indexForTabPos], from any start. *)
Lemma indexForTabPos_loop_first_hit hit (k : nat) (i0 : Z) :
  (indexForTabPos_loop hit k i0 = -1
   ∧ ∀ i, i0 ≤ i < i0 + Z.of_nat k → hit i = false)
  ∨ (i0 ≤ indexForTabPos_loop hit k i0 < i0 + Z.of_nat k
     ∧ hit (indexForTabPos_loop hit k i0) = true
     ∧ ∀ i, i0 ≤ i < indexForTabPos_loop hit k i0 → hit i = false).
Proof.
  revert i0. induction k as [|k IH]; intros i0; simpl.
  - left. split; [done | intros; lia].
  - destruct (hit i0) eqn:Hhit.
    + right. split_and!; [lia | lia | done | intros; lia].
    + destruct (IH (i0 + 1)) as [[Hr Hnone]|(Hr & Hr' & Hfirst)].
      * left. split; [done|]. intros i Hi.
        destruct (decide (i = i0)) as [->|]; [done | apply Hnone; lia].
      * right. split_and!; [lia | lia | done |]. intros i Hi.
        destruct (decide (i = i0)) as [->|]; [done | apply Hfirst; lia].
Qed.

(** X19: [indexForTabPos] returns the first tab whose rectangle contains the
    point, so the lowest index where rectangles overlap, and -1 when no tab
    of the model does; tabs beyond [count] are not looked at. *)
Theorem indexForTabPos_first_hit hit tb :
  (indexForTabPos hit tb = -1
   ∧ ∀ i, 0 ≤ i < count (m_dockWidgetModel tb) → hit i = false)
  ∨ (0 ≤ indexForTabPos hit tb < count (m_dockWidgetModel tb)
     ∧ hit (indexForTabPos hit tb) = true
     ∧ ∀ i, 0 ≤ i < indexForTabPos hit tb → hit i = false).
Proof.
  unfold indexForTabPos.
  pose proof (count_nonneg (m_dockWidgetModel tb)) as Hcount.
  destruct (indexForTabPos_loop_first_hit hit
              (Z.to_nat (count (m_dockWidgetModel tb))) 0)
    as [[Hr Hnone]|(Hr & Hr' & Hfirst)].
  - left. split; [done|]. intros i Hi. apply Hnone. lia.
  - right. split_and!; [lia | lia | done | done].
Qed.

(** The traced loop returns what the loop on the answers returns, and warns
    once for each tab it looked at whose lookup failed: the tabs before the
    one returned, or all of them when none is under the point. *)
Lemma indexForTabPos_traced_loop_spec qml (k : nat) (i0 : Z) :
  0 ≤ i0 →
  indexForTabPos_traced_loop qml k i0
  = (indexForTabPos_loop (tab_hit qml) k i0,
     tabAt_warning
       <$> filter (tab_unresolved qml)
             (seqZ i0 (if decide (indexForTabPos_loop (tab_hit qml) k i0 = -1)
                       then Z.of_nat k
                       else indexForTabPos_loop (tab_hit qml) k i0 - i0))).
Proof.
  revert i0. induction k as [|k IH]; intros i0 Hi0.
  - cbn [indexForTabPos_traced_loop indexForTabPos_loop].
    rewrite decide_True by done. by rewrite seqZ_nil by lia.
  - cbn [indexForTabPos_traced_loop indexForTabPos_loop].
    destruct (tab_hit qml i0) eqn:Hhit.
    + (* an item under the point *)
      assert (globalRectForTab_contains qml i0 = (true, [])) as ->.
      { unfold globalRectForTab_contains, tabAt. unfold tab_hit in Hhit.
        by destruct (qml i0) as [| |[|]]. }
      rewrite decide_False by lia. rewrite Z.sub_diag. by rewrite seqZ_nil.
    + (* no hit: a warning if the lookup failed *)
      assert (globalRectForTab_contains qml i0
              = (false, tabAt_warning <$> filter (tab_unresolved qml) [i0])) as ->.
      { unfold globalRectForTab_contains, tabAt. unfold tab_hit in Hhit.
        destruct (qml i0) as [| |[|]] eqn:Hq; [| |done|].
        - by rewrite filter_cons_True, filter_nil by done.
        - rewrite filter_cons_False, filter_nil; [done|].
          unfold tab_unresolved. congruence.
        - rewrite filter_cons_False, filter_nil; [done|].
          unfold tab_unresolved. congruence. }
      rewrite IH by lia. f_equal.
      rewrite <- fmap_app, <- filter_app. do 2 f_equal.
      destruct (indexForTabPos_loop_first_hit (tab_hit qml) k (i0 + 1))
        as [[Hr _]|(Hr & _ & _)].
      * rewrite Hr, !decide_True by done.
        rewrite (seqZ_cons i0) by lia. simpl. do 2 f_equal. lia.
      * rewrite !decide_False by lia.
        rewrite (seqZ_cons i0) by lia. simpl. do 2 f_equal; lia.
Qed.

(** X20: [onHoverEvent] always returns and leaves the model alone. On
    [HoverLeave] the hovered tab index becomes -1 and no tab is looked up.
    Otherwise it becomes the first tab under the pointer (-1 if there is
    none), and the call first warns once for each tab whose lookup in the
    QML item failed among those it looked at: the tabs before the one found,
    or all tabs of the model when none is found. In both cases
    [hoveredTabIndexChanged] follows exactly when the index has changed. The
    same event delivered again repeats the warnings and emits no signal. *)
Theorem onHoverEvent_tracks_tab qml type tb :
  let target :=
    match type with
    | HoverLeave => -1
    | _ => indexForTabPos (tab_hit qml) tb
    end in
  let warnings :=
    match type with
    | HoverLeave => []
    | _ => tabAt_warning
             <$> filter (tab_unresolved qml)
                   (seqZ 0 (if decide (target = -1)
                            then count (m_dockWidgetModel tb) else target))
    end in
  ∃ tb',
    onHoverEvent qml type tb
    = Some (tb', warnings
                 ++ (if decide (target = m_hoveredTabIndex tb) then []
                     else [view_event (hoveredTabIndexChanged target)]))
    ∧ m_hoveredTabIndex tb' = target
    ∧ m_dockWidgetModel tb' = m_dockWidgetModel tb
    ∧ onHoverEvent qml type tb' = Some (tb', warnings).
Proof.
  assert (∀ idx tb0,
            ∃ tb1,
              TabBar.setHoveredTabIndex idx tb0
              = Ok tt tb1 (if decide (idx = m_hoveredTabIndex tb0) then []
                           else [hoveredTabIndexChanged idx])
              ∧ m_hoveredTabIndex tb1 = idx
              ∧ m_dockWidgetModel tb1 = m_dockWidgetModel tb0
              ∧ TabBar.setHoveredTabIndex idx tb1 = Ok tt tb1 []) as Hset.
  { intros idx [m0 hovered].
    unfold TabBar.setHoveredTabIndex, bind, gets, modify, emit, ret. simpl.
    destruct (idx =? hovered) eqn:E.
    - apply Z.eqb_eq in E as ->. eexists. rewrite decide_True by done.
      split; [done|]. simpl. by rewrite Z.eqb_refl.
    - apply Z.eqb_neq in E. eexists. rewrite decide_False by done.
      split; [done|]. simpl. by rewrite Z.eqb_refl. }
  assert (indexForTabPos_traced qml tb
          = (indexForTabPos (tab_hit qml) tb,
             tabAt_warning
               <$> filter (tab_unresolved qml)
                     (seqZ 0 (if decide (indexForTabPos (tab_hit qml) tb = -1)
                              then count (m_dockWidgetModel tb)
                              else indexForTabPos (tab_hit qml) tb)))) as Htraced.
  { unfold indexForTabPos_traced, indexForTabPos.
    rewrite indexForTabPos_traced_loop_spec by lia.
    pose proof (count_nonneg (m_dockWidgetModel tb)).
    rewrite Z2Nat.id, Z.sub_0_r by done. done. }
  assert (∀ tb1, m_dockWidgetModel tb1 = m_dockWidgetModel tb →
                 indexForTabPos_traced qml tb1 = indexForTabPos_traced qml tb)
    as Hsame.
  { intros tb1 Hm. unfold indexForTabPos_traced. by rewrite Hm. }
  intros target warnings. subst target warnings. unfold onHoverEvent.
  destruct type.
  - rewrite Htraced.
    destruct (Hset (indexForTabPos (tab_hit qml) tb) tb) as (tb1 & H1 & H2 & H3 & H4).
    exists tb1. rewrite H1. split_and!; [|done|done|].
    + by destruct (decide (_ = m_hoveredTabIndex tb)).
    + rewrite (Hsame tb1 H3), Htraced, H4. simpl. by rewrite app_nil_r.
  - destruct (Hset (-1) tb) as (tb1 & H1 & H2 & H3 & H4).
    exists tb1. rewrite H1. split_and!; [|done|done|].
    + by destruct (decide (_ = m_hoveredTabIndex tb)).
    + by rewrite H4.
  - rewrite Htraced.
    destruct (Hset (indexForTabPos (tab_hit qml) tb) tb) as (tb1 & H1 & H2 & H3 & H4).
    exists tb1. rewrite H1. split_and!; [|done|done|].
    + by destruct (decide (_ = m_hoveredTabIndex tb)).
    + rewrite (Hsame tb1 H3), Htraced, H4. simpl. by rewrite app_nil_r.
Qed.
